(** * RecurrentNet (neural_net.py): a shallow embedding and its properties

    The Python class [RecurrentNet] is embedded as functions over an explicit
    record of its attributes.  Python exceptions are carried by a small error
    monad; the Keras model is an external collaborator and appears only as a
    prediction function and a fitting function over an abstract type of
    weights.

    Representation choices:
    - a Python [str] is the list of its code points ([str := list N]), so that
      ['\0'], ['\1'], ['\2'] are [0], [1], [2] and [sorted] is the order of [N];
    - a numpy array of floats that only ever holds [0.] and [1.] is a list of
      rows over [Z]; the probabilities returned by the model are rows over [Q];
    - the dictionaries are [gmap]s, lists indexed by position use stdpp's
      lookup with the out-of-range case written out as [IndexError]. *)

From Stdlib Require Import QArith.
From stdpp Require Import gmap list sorting pretty strings.

Local Open Scope nat_scope.
Local Open Scope string_scope.
Local Open Scope list_scope.

(** ** Python strings *)

Abbreviation char := N (only parsing).
Abbreviation str := (list N) (only parsing).

(** A source literal as a Python string. *)
Definition lit (s : string) : str :=
  Ascii.N_of_ascii <$> String.list_ascii_of_string s.

(** [str(n)] for a non-negative integer. *)
Definition py_str (n : nat) : str := lit (pretty n).

Definition NUL : char := 0%N.   (* '\0', the pad sentinel *)
Definition SOH : char := 1%N.   (* '\1', the start sentinel *)
Definition STX : char := 2%N.   (* '\2', the end sentinel *)

(** ** Exceptions *)

Inductive exn : Set :=
  | KeyError
  | IndexError
  | TypeError
  | ValueError
  | SystemExit (code : Z).

Inductive result (A : Type) : Type :=
  | Ok (a : A)
  | Raise (e : exn).
Arguments Ok {A} a.
Arguments Raise {A} e.

Definition bind {A B} (m : result A) (k : A -> result B) : result B :=
  match m with
  | Ok a => k a
  | Raise e => Raise e
  end.

Notation "x <~ m ; k" := (bind m (fun x => k))
  (at level 100, m at next level, right associativity).

(** [for x in l: s = f(s, x)], stopping at the first exception. *)
Fixpoint foldM {A S} (f : S -> A -> result S) (s : S) (l : list A) : result S :=
  match l with
  | [] => Ok s
  | x :: l' => s' <~ f s x; foldM f s' l'
  end.

(** [for x in l: ys.append(f(x))], stopping at the first exception. *)
Fixpoint mapM {A B} (f : A -> result B) (l : list A) : result (list B) :=
  match l with
  | [] => Ok []
  | x :: l' => y <~ f x; ys <~ mapM f l'; Ok (y :: ys)
  end.

(** [try: m  except IndexError: pass], leaving the state [s] as it was. *)
Definition except_IndexError {S} (m : result S) (s : S) : result S :=
  match m with
  | Raise IndexError => Ok s
  | _ => m
  end.

(** [d[k]] on a dictionary. *)
Definition getitem `{Countable K} {V} (d : gmap K V) (k : K) : result V :=
  match d !! k with
  | Some v => Ok v
  | None => Raise KeyError
  end.

(** [l[i]] on a list or array, for [i >= 0]. *)
Definition index {A} (l : list A) (i : nat) : result A :=
  match l !! i with
  | Some x => Ok x
  | None => Raise IndexError
  end.

(** [row[j] = v] on an array, for [j >= 0]. *)
Definition setitem {A} (l : list A) (j : nat) (v : A) : result (list A) :=
  match l !! j with
  | Some _ => Ok (<[j := v]> l)
  | None => Raise IndexError
  end.

(** [enumerate(l)] *)
Definition enumerate {A} (l : list A) : list (nat * A) := imap pair l.

(** ** Arrays *)

Abbreviation row := (list Z) (only parsing).
Abbreviation tensor := (list (list Z)) (only parsing).

(** [numpy.zeros((n, v))] *)
Definition zeros (n v : nat) : tensor := replicate n (replicate v 0%Z).

(** [numpy.argmax(r)]: the first position of the greatest entry. *)
Fixpoint argmax_from (best_i : nat) (best : Q) (i : nat) (r : list Q) : nat :=
  match r with
  | [] => best_i
  | x :: r' =>
      if Qle_bool x best then argmax_from best_i best (S i) r'
      else argmax_from i x (S i) r'
  end.

Definition argmax (r : list Q) : result nat :=
  match r with
  | [] => Raise ValueError
  | x :: r' => Ok (argmax_from 0 x 1 r')
  end.

(** ** The object *)

Record RecurrentNet : Type := mkNet {
  data : option (list str);
  unique_char_set : option (list char);
  max_string_length : nat;
  char_to_int_dict : gmap N nat;
  int_to_char_dict : gmap nat N
}.

(** The attributes as [__init__] sets them before its three calls. *)
Definition new_net : RecurrentNet :=
  {| data := None; unique_char_set := None; max_string_length := 0;
     char_to_int_dict := ∅; int_to_char_dict := ∅ |}.

(** [len(self.unique_char_set)] *)
Definition vocab_size (self : RecurrentNet) : result nat :=
  match unique_char_set self with
  | Some ucs => Ok (length ucs)
  | None => Raise TypeError
  end.

(** ** Logging and the file system *)

Inductive log_entry : Set :=
  | Info (msg : str)
  | Error (msg : str)
  | TestResult (msg : str).

(** An element of the JSON array: [line['text']] is a string, or raises. *)
Inductive json_line : Set :=
  | Text (text : str)
  | NoText.

(** What [open] followed by [json.load] gives for a path: the array, or
    [None] when either call raises. *)
Definition file_system := str -> option (list json_line).

(** ** import_data *)

(** First loop of the [try] block: the running maximum, and whether the loop
    ran to its end ([false]: [line['text']] raised). *)
Fixpoint longest_record (dataset_import : list json_line) (msl : nat) : nat * bool :=
  match dataset_import with
  | [] => (msl, true)
  | Text text :: rest =>
      let new_record := length text in
      longest_record rest (if decide (msl < new_record) then new_record else msl)
  | NoText :: _ => (msl, false)
  end.

Definition wrap (text : str) : str := [SOH] ++ text ++ [STX] ++ [NUL].

(** Second loop of the [try] block. *)
Fixpoint wrap_records (dataset_import : list json_line) : option (list str) :=
  match dataset_import with
  | [] => Some []
  | Text text :: rest => (fun ds => wrap text :: ds) <$> wrap_records rest
  | NoText :: _ => None
  end.

Definition with_max_string_length (self : RecurrentNet) (n : nat) : RecurrentNet :=
  {| data := data self; unique_char_set := unique_char_set self;
     max_string_length := n;
     char_to_int_dict := char_to_int_dict self;
     int_to_char_dict := int_to_char_dict self |}.

Definition with_data (self : RecurrentNet) (d : list str) : RecurrentNet :=
  {| data := Some d; unique_char_set := unique_char_set self;
     max_string_length := max_string_length self;
     char_to_int_dict := char_to_int_dict self;
     int_to_char_dict := int_to_char_dict self |}.

Definition read_error_log : list log_entry :=
  [Error (lit "Error reading file."); Error (lit "<class 'Exception'>")].

(** The [try ... except Exception] block: it always returns normally. *)
Definition import_file (self : RecurrentNet) (fs : file_system) (file_location : str)
  : RecurrentNet * list log_entry :=
  match fs file_location with
  | None => (self, read_error_log)
  | Some dataset_import =>
      match longest_record dataset_import (max_string_length self) with
      | (msl, false) => (with_max_string_length self msl, read_error_log)
      | (msl, true) =>
          let self := with_max_string_length self (msl + 3) in
          let log := [Info (lit "Max record length: " ++ py_str (max_string_length self))] in
          match wrap_records dataset_import with
          | None => (self, log ++ read_error_log)
          | Some dataset => (with_data self dataset, log)
          end
      end
  end.

Definition import_data (self : RecurrentNet) (fs : file_system) (data_source : str)
  : result RecurrentNet * list log_entry :=
  if decide (data_source = lit "trump") then
    let '(self, log) := import_file self fs (lit "Documents/trump_tweets_2017.json") in
    (Ok self, Info (lit "Using Trump Tweet Dataset.") :: log)
  else if decide (data_source = lit "alice") then
    let '(self, log) := import_file self fs (lit "Documents/alice.json") in
    (Ok self, Info (lit "Using Alice in Wonderland Dataset.") :: log)
  else
    (Raise (SystemExit 1), [Error (lit "Unknown data source.")]).

(** ** get_character_set *)

(** [sorted(list(set(s)))] *)
Definition sorted_set (s : str) : list char :=
  merge_sort N.le (elements (list_to_set s : gset N)).

(** Informational logging of this method is left out. *)
Definition get_character_set (self : RecurrentNet) : result RecurrentNet :=
  match data self with
  | None => Raise TypeError            (* ''.join(None) *)
  | Some d =>
      let dataset_string := concat d in
      let ucs := sorted_set dataset_string in
      Ok {| data := data self;
            unique_char_set := Some ucs;
            max_string_length := max_string_length self;
            char_to_int_dict :=
              foldl (fun m '(enumeration, value) => <[value := enumeration]> m)
                    (char_to_int_dict self) (enumerate ucs);
            int_to_char_dict :=
              foldl (fun m '(value, enumeration) => <[value := enumeration]> m)
                    (int_to_char_dict self) (enumerate ucs) |}
  end.

(** ** build_architecture

    Only what the method reads from the object: the layers are Keras's. *)
Definition build_architecture (self : RecurrentNet) : result unit :=
  _ <~ getitem (char_to_int_dict self) NUL;
  _ <~ vocab_size self;
  Ok tt.

(** ** __init__ *)

Definition RecurrentNet_init (fs : file_system) (data_source : str) : result RecurrentNet :=
  self <~ fst (import_data new_net fs data_source);
  self <~ get_character_set self;
  _ <~ build_architecture self;
  Ok self.

(** ** convert_to_onehot *)

Definition convert_to_onehot (self : RecurrentNet) (sequence : list nat) : result tensor :=
  v <~ vocab_size self;
  foldM (fun new_onehot char_index =>
           r <~ index new_onehot char_index;
           k <~ index sequence char_index;
           r' <~ setitem r k 1%Z;
           Ok (<[char_index := r']> new_onehot))
        (zeros (max_string_length self) v)
        (seq 0 (length sequence)).

(** [[self.char_to_int_dict[char] for char in record]], as [train] and
    [generate_text] build their index sequences. *)
Definition int_sequence (self : RecurrentNet) (record : str) : result (list nat) :=
  mapM (getitem (char_to_int_dict self)) record.

(** The lookup of the set column of a row in [generate_text]:
    [conversion_index] stays [None] when no entry equals 1. *)
Fixpoint first_one (onehot_index : nat) (r : row) : option nat :=
  match r with
  | [] => None
  | x :: r' =>
      if decide (x = 1%Z) then Some onehot_index else first_one (S onehot_index) r'
  end.

Definition conversion_index (r : row) : option nat := first_one 0 r.

(** ** append_onehot

    [old_onehot] is the single sample [generated_text[0]], which the method
    changes in place and returns (the caller assigns it back onto itself);
    the assignment outside the array is the caught [IndexError]. *)
Definition append_onehot (self : RecurrentNet) (old_onehot : tensor)
    (row_index : nat) (c : char) : result tensor :=
  v <~ vocab_size self;
  k <~ getitem (char_to_int_dict self) c;
  new_row <~ setitem (replicate v 0%Z) k 1%Z;
  match old_onehot !! row_index with
  | Some _ => Ok (<[row_index := new_row]> old_onehot)
  | None => Ok old_onehot
  end.

(** ** remove_extra_characters *)

(** [s.count(c)] for a one-character [c]. *)
Definition count (s : str) (c : char) : nat := length (filter (fun x => x = c) s).

(** [l.remove(x)]: drops the first occurrence, [ValueError] without one. *)
Fixpoint list_remove_first (x : char) (l : list char) : result (list char) :=
  match l with
  | [] => Raise ValueError
  | y :: l' =>
      if decide (y = x) then Ok l'
      else l'' <~ list_remove_first x l'; Ok (y :: l'')
  end.

(** The [for char in self.unique_char_set] loop: the iterator is a position
    in the list being mutated.  [None] only when [fuel] runs out. *)
Fixpoint remove_loop (fuel : nat) (dataset_string : str) (min_required_count : nat)
    (l : list char) (pos : nat) : option (result (list char)) :=
  match l !! pos with
  | None => Some (Ok l)
  | Some c =>
      match fuel with
      | 0 => None
      | S fuel' =>
          if decide (count dataset_string c < min_required_count) then
            match list_remove_first c l with
            | Ok l' => remove_loop fuel' dataset_string min_required_count l' (S pos)
            | Raise e => Some (Raise e)
            end
          else remove_loop fuel' dataset_string min_required_count l (S pos)
      end
  end.

Definition remove_extra_characters (self : RecurrentNet) (dataset_string : str)
    (min_required_count : nat) : option (result RecurrentNet) :=
  match unique_char_set self with
  | None => Some (Raise TypeError)       (* len(None) in the first log lines *)
  | Some ucs =>
      match remove_loop (length ucs) dataset_string min_required_count ucs 0 with
      | None => None
      | Some (Raise e) => Some (Raise e)
      | Some (Ok ucs') =>
          Some (Ok {| data := data self; unique_char_set := Some ucs';
                      max_string_length := max_string_length self;
                      char_to_int_dict := char_to_int_dict self;
                      int_to_char_dict := int_to_char_dict self |})
      end
  end.

(** ** The model, generate_text and train *)

Inductive event : Set :=
  | Log (e : log_entry)
  | Fit (batch_size : nat)
  | SaveWeights (path : str).

(** [keras.preprocessing.sequence.pad_sequences(x, maxlen)] with its default
    'pre' padding and truncating, on samples whose rows are [v] wide. *)
Definition pad_sequences (v : nat) (x : list tensor) (maxlen : nat) : list tensor :=
  (fun s => replicate (maxlen - length s) (replicate v 0%Z) ++ drop (length s - maxlen) s) <$> x.

Section Model.

(** The state of [self.model]. *)
Variable weights : Type.
(** [self.model.predict(generated_text)[0]] *)
Variable predict : weights -> tensor -> list (list Q).
(** [self.model.fit(features, targets, batch_size=...)] *)
Variable fit : weights -> list tensor -> list tensor -> nat -> weights.
(** [datetime.datetime.now().strftime('%y-%m-%d_%I:%M')] as read during a
    given epoch. *)
Variable now : nat -> str.

(** The [try] block of one iteration of the sampling loop. *)
Definition predict_next (self : RecurrentNet) (w : weights)
    (generated_text : tensor) (idx : nat) : result tensor :=
  except_IndexError
    (r <~ index (predict w generated_text) idx;
     predict_value <~ argmax r;
     c <~ getitem (int_to_char_dict self) predict_value;
     append_onehot self generated_text (idx + 1) c)
    generated_text.

(** The display loop: both strings are rebuilt from the rows, up to the
    first row whose lookup in [int_to_char_dict] is a [KeyError]. *)
Fixpoint display (self : RecurrentNet) (rows : tensor) (ints chars : str) : str * str :=
  match rows with
  | [] => (ints, chars)
  | r :: rows' =>
      match conversion_index r with
      | None => (ints, chars)
      | Some k =>
          match int_to_char_dict self !! k with
          | None => (ints, chars)
          | Some c => display self rows' (ints ++ py_str k ++ lit " ") (chars ++ [c])
          end
      end
  end.

(** One iteration of [for index in range(self.max_string_length)]. *)
Definition generate_step (self : RecurrentNet) (w : weights)
    (st : tensor * (str * str)) (idx : nat) : result (tensor * (str * str)) :=
  generated_text <~ predict_next self w (fst st) idx;
  Ok (generated_text, display self generated_text [] []).

(** The sampling tensor and the two strings after the first [n] iterations. *)
Definition generate_steps (self : RecurrentNet) (w : weights) (n : nat)
  : result (tensor * (str * str)) :=
  v <~ vocab_size self;
  generated_text <~ append_onehot self (zeros (max_string_length self) v) 0 SOH;
  foldM (generate_step self w) (generated_text, ([], [])) (seq 0 n).

Definition generate_text (self : RecurrentNet) (w : weights) : result (str * str) :=
  st <~ generate_steps self w (max_string_length self);
  Ok (snd st).

(** The target of a record in [train]: [pop(0)], then the pad index. *)
Definition target_sequence (self : RecurrentNet) (record : str) : result (list nat) :=
  output_sequence <~ int_sequence self record;
  output_sequence <~ match output_sequence with
                     | [] => Raise IndexError
                     | _ :: rest => Ok rest
                     end;
  pad <~ getitem (char_to_int_dict self) NUL;
  Ok (output_sequence ++ [pad]).

Definition train_record (self : RecurrentNet) (record : str) : result (tensor * tensor) :=
  input_sequence <~ int_sequence self record;
  feature <~ convert_to_onehot self input_sequence;
  output_sequence <~ target_sequence self record;
  target <~ convert_to_onehot self output_sequence;
  Ok (feature, target).

Definition train_tensors (self : RecurrentNet) : result (list tensor * list tensor) :=
  match data self with
  | None => Raise TypeError
  | Some d =>
      v <~ vocab_size self;
      pairs <~ mapM (train_record self) d;
      Ok (pad_sequences v (fst <$> pairs) (max_string_length self),
          pad_sequences v (snd <$> pairs) (max_string_length self))
  end.

Definition weights_path (v idx : nat) (timestamp : str) : str :=
  lit "Documents/Weights/4LSTM_Size" ++ py_str v ++ lit "_atEpoch" ++ py_str idx
    ++ lit "_" ++ timestamp.

(** The body of [for index in range(num_epochs)]: the weights after it and
    what it logged, fitted and saved, in order.  The line that
    [generate_text] logs on entry is recorded here, with the call. *)
Definition epoch (self : RecurrentNet) (features targets : list tensor)
    (w : weights) (idx : nat) : result (weights * list event) :=
  let head := [Log (Info []); Log (Info []); Log (Info (lit "Epoch " ++ py_str idx))] in
  let w := fit w features targets (max_string_length self) in
  sampled <~ (if decide (idx mod 10 = 0) then
                generated_values <~ generate_text self w;
                Ok [Log (Info (lit "Attempting to generate text."));
                    Log (TestResult (lit "Epoch: " ++ py_str idx
                           ++ lit "   Full Generated Int String: " ++ fst generated_values));
                    Log (TestResult (lit "Epoch: " ++ py_str idx
                           ++ lit "   Full Generated Char String: " ++ snd generated_values))]
              else Ok []);
  saved <~ (if decide (idx mod 50 = 0) then
              v <~ vocab_size self;
              Ok [SaveWeights (weights_path v idx (now idx))]
            else Ok []);
  Ok (w, head ++ [Fit (max_string_length self)] ++ sampled ++ saved).

Definition train (self : RecurrentNet) (w : weights) (num_epochs : nat)
  : result (weights * list event) :=
  ft <~ train_tensors self;
  foldM (fun st idx =>
           r <~ epoch self (fst ft) (snd ft) (fst st) idx;
           Ok (fst r, snd st ++ snd r))
        (w, []) (seq 0 num_epochs).

End Model.

(** ** Notions used in the statements *)

(** What a constructed object satisfies. *)
Record session (self : RecurrentNet) (texts : list str) (ucs : list char) : Prop := {
  ses_texts : texts <> [];
  ses_data : data self = Some (wrap <$> texts);
  ses_msl : max_string_length self = max_list (length <$> texts) + 3;
  ses_ucs : unique_char_set self = Some ucs;
  ses_vocab : ucs = sorted_set (concat (wrap <$> texts));
  ses_c2i : forall c i, char_to_int_dict self !! c = Some i <-> ucs !! i = Some c;
  ses_i2c : forall i, int_to_char_dict self !! i = ucs !! i
}.

(** The row [convert_to_onehot] and [append_onehot] write for index [k]. *)
Definition onehot (v k : nat) : list Z := <[k := 1%Z]> (replicate v 0%Z).

(** The entries of a row that equal 1. *)
Definition ones (r : list Z) : nat := length (filter (fun x => x = 1%Z) r).

(** What [convert_to_onehot] returns on a sequence that fits. *)
Definition onehot_rows (msl v : nat) (sequence : list nat) : list (list Z) :=
  (onehot v <$> sequence) ++ replicate (msl - length sequence) (replicate v 0%Z).

(** The output shape of the model: one distribution over the vocabulary per
    position, for every input of the shape it was built for. *)
Definition well_shaped {weights : Type} (predict : weights -> list (list Z) -> list (list Q))
    (msl v : nat) : Prop :=
  forall w t, length t = msl -> Forall (fun r => length r = v) t ->
    length (predict w t) = msl /\ Forall (fun r => length r = v) (predict w t).

(** What holds of the sampling array at every point of [generate_text]. *)
Definition sampling_inv (self : RecurrentNet) (ucs : list char) (t : list (list Z)) : Prop :=
  length t = max_string_length self
  /\ (exists k, ucs !! k = Some SOH /\ t !! 0 = Some (onehot (length ucs) k))
  /\ Forall (fun r => r = replicate (length ucs) 0%Z
                      \/ exists k, k < length ucs /\ r = onehot (length ucs) k) t.

(** What one epoch logs, fits and saves. *)
Definition epoch_events (now : nat -> list N) (self : RecurrentNet) (ucs : list char)
    (i : nat) (ints chars : str) : list event :=
  [Log (Info []); Log (Info []); Log (Info (lit "Epoch " ++ py_str i));
   Fit (max_string_length self)]
  ++ (if decide (i mod 10 = 0) then
        [Log (Info (lit "Attempting to generate text."));
         Log (TestResult (lit "Epoch: " ++ py_str i
                ++ lit "   Full Generated Int String: " ++ ints));
         Log (TestResult (lit "Epoch: " ++ py_str i
                ++ lit "   Full Generated Char String: " ++ chars))]
      else [])
  ++ (if decide (i mod 50 = 0) then
        [SaveWeights (lit "Documents/Weights/4LSTM_Size" ++ py_str (length ucs)
                        ++ lit "_atEpoch" ++ py_str i ++ lit "_" ++ now i)]
      else []).

(** The two data sources [import_data] knows, with their files. *)
Definition known_source (data_source file_location : list N) : Prop :=
  data_source = lit "trump" /\ file_location = lit "Documents/trump_tweets_2017.json"
  \/ data_source = lit "alice" /\ file_location = lit "Documents/alice.json".

(** The elements at the odd positions of a list. *)
Fixpoint odds {A} (l : list A) : list A :=
  match l with
  | _ :: y :: l' => y :: odds l'
  | _ => []
  end.

(** [' '.join]-like index string of the display loop: each index followed by
    a space. *)
Definition int_string (ks : list nat) : list N :=
  concat ((fun k => py_str k ++ lit " ") <$> ks).

(** Each index after the first is the arg-max of the prediction, at the
    position before it, on the array of the indices before it. *)
Definition autoregressive {weights : Type}
    (predict : weights -> list (list Z) -> list (list Q))
    (self : RecurrentNet) (ucs : list char) (w : weights) (ks : list nat) : Prop :=
  forall i k, ks !! (i + 1) = Some k ->
    exists r, predict w (onehot_rows (max_string_length self) (length ucs)
                           (take (i + 1) ks)) !! i = Some r
              /\ argmax r = Ok k.

(** Kinds of events of a training trace. *)
Definition is_fit (e : event) : bool :=
  match e with Fit _ => true | _ => false end.

Definition is_save (e : event) : bool :=
  match e with SaveWeights _ => true | _ => false end.

Definition is_test_result (e : event) : bool :=
  match e with Log (TestResult _) => true | _ => false end.

(** ** Concrete inputs used to exercise the statements below *)

(** The corpus [[{"text": "hi"}, {"text": "yo"}]] behind the Trump path. *)
Definition example_fs : file_system :=
  fun p => if decide (p = lit "Documents/trump_tweets_2017.json")
           then Some [Text (lit "hi"); Text (lit "yo")] else None.

(** Records of raw lengths 5, 12 and 3. *)
Definition example_texts : list (list N) :=
  [lit "hello"; lit "twelve chars"; lit "abc"].

Definition example_lengths_fs : file_system :=
  fun p => if decide (p = lit "Documents/alice.json")
           then Some (Text <$> example_texts) else None.

(** No dataset file can be opened. *)
Definition no_files : file_system := fun _ => None.

(** The object [RecurrentNet('trump')] over [example_fs]. *)
Definition example_net : RecurrentNet :=
  Eval vm_compute in
    match RecurrentNet_init example_fs (lit "trump") with
    | Ok self => self
    | Raise _ => new_net
    end.

Definition example_ucs : list N := [0; 1; 2; 104; 105; 111; 121]%N.

(** A model that always predicts the last symbol of a [v]-symbol vocabulary,
    at each of [msl] positions. *)
Definition last_symbol_model (msl v : nat) (w : unit) (t : list (list Z)) : list (list Q) :=
  replicate msl (replicate (v - 1) 0%Q ++ [1%Q]).

(** A model that training leaves as it is, and a clock that stands still. *)
Definition example_fit (w : unit) (features targets : list (list (list Z))) (batch_size : nat)
  : unit := w.

Definition example_now (idx : nat) : list N := lit "26-11-04_01:07".


(** An empty array. *)
Definition example_empty_fs : file_system :=
  fun p => if decide (p = lit "Documents/alice.json") then Some (Text <$> []) else None.

(** A model whose prediction holds no row at all. *)
Definition rowless_model (w : unit) (t : list (list Z)) : list (list Q) := [].

(** A model whose rows are one entry wider than a [v]-symbol vocabulary,
    with the greatest entry last. *)
Definition wide_model (msl v : nat) (w : unit) (t : list (list Z)) : list (list Q) :=
  replicate msl (replicate v 0%Q ++ [1%Q]).

(** * Properties *)

(** ** The error monad *)

Lemma foldM_app {A S} (f : S -> A -> result S) (s : S) (l k : list A) :
  foldM f s (l ++ k) = (s' <~ foldM f s l; foldM f s' k).
Proof.
  revert s. induction l as [|x l IH]; intros s; simpl; [done|].
  destruct (f s x); simpl; [apply IH | done].
Qed.

Lemma foldM_snoc {A S} (f : S -> A -> result S) (s : S) (l : list A) (x : A) :
  foldM f s (l ++ [x]) = (s' <~ foldM f s l; f s' x).
Proof.
  rewrite foldM_app. destruct (foldM f s l); simpl; [|done].
  by destruct (f a x).
Qed.

Lemma foldM_range_S {S} (f : S -> nat -> result S) (s : S) (n : nat) :
  foldM f s (seq 0 (Datatypes.S n)) = (s' <~ foldM f s (seq 0 n); f s' n).
Proof. by rewrite seq_S, foldM_snoc. Qed.

Lemma foldM_ext {A S} (f g : S -> A -> result S) (s : S) (l : list A) :
  (forall s x, f s x = g s x) -> foldM f s l = foldM g s l.
Proof.
  intros Hfg. revert s. induction l as [|x l IH]; intros s; simpl; [done|].
  rewrite Hfg. destruct (g s x); simpl; auto.
Qed.

Lemma mapM_Forall2 {A B} (f : A -> result B) (P : A -> B -> Prop) (l : list A) :
  Forall (fun x => exists y, f x = Ok y /\ P x y) l ->
  exists ys, mapM f l = Ok ys /\ Forall2 P l ys.
Proof.
  induction 1 as [|x l (y & Hy & HP) _ (ys & Hys & HF)]; simpl.
  - exists []. by split; [|constructor].
  - exists (y :: ys). rewrite Hy, Hys. simpl. by split; [|constructor].
Qed.

(** ** The vocabulary *)

Lemma sorted_set_spec (s : str) :
  StronglySorted N.lt (sorted_set s) /\ NoDup (sorted_set s)
  /\ forall c, c ∈ sorted_set s <-> c ∈ s.
Proof.
  unfold sorted_set.
  set (l := elements (list_to_set s : gset N)).
  assert (Hperm : merge_sort N.le l ≡ₚ l) by apply merge_sort_Permutation.
  assert (Hnd : NoDup (merge_sort N.le l)).
  { rewrite Hperm. apply NoDup_elements. }
  split; [|split; [done|]].
  - assert (Hs : StronglySorted N.le (merge_sort N.le l))
      by apply (StronglySorted_merge_sort _).
    revert Hs Hnd. generalize (merge_sort N.le l). clear.
    induction 1 as [|x k Hk IH Hall]; intros Hnd; constructor.
    + apply IH. by apply NoDup_cons in Hnd as [_ ?].
    + apply NoDup_cons in Hnd as [Hx _].
      rewrite Forall_forall in Hall |- *. intros y Hy.
      specialize (Hall y Hy).
      assert (x <> y) by (intros ->; done). lia.
  - intros c. rewrite Hperm. unfold l.
    by rewrite elem_of_elements, elem_of_list_to_set.
Qed.

Lemma enumerate_snoc {A} (l : list A) (x : A) :
  enumerate (l ++ [x]) = enumerate l ++ [(length l, x)].
Proof.
  unfold enumerate. rewrite imap_app. simpl. do 3 f_equal. lia.
Qed.

(** The index dictionary built over empty: the positions of the list. *)
Lemma int_to_char_lookup (l : list char) (i : nat) :
  foldl (fun (m : gmap nat N) '(value, enumeration) => <[value := enumeration]> m)
        ∅ (enumerate l) !! i = l !! i.
Proof.
  induction l as [|x l IH] using rev_ind; [done|].
  rewrite enumerate_snoc, foldl_snoc. simpl.
  destruct (decide (i = length l)) as [->|Hne].
  - by rewrite lookup_insert_eq, list_lookup_middle.
  - rewrite lookup_insert_ne by done. rewrite IH.
    destruct (decide (i < length l)).
    + by rewrite lookup_app_l.
    + rewrite !lookup_ge_None_2; [done| |lia].
      rewrite length_app. simpl. lia.
Qed.

(** The character dictionary built over empty from a duplicate-free list:
    the inverse of the positions. *)
Lemma char_to_int_lookup (l : list char) (c : char) (i : nat) :
  NoDup l ->
  foldl (fun (m : gmap N nat) '(enumeration, value) => <[value := enumeration]> m)
        ∅ (enumerate l) !! c = Some i <-> l !! i = Some c.
Proof.
  induction l as [|x l IH] using rev_ind; intros Hnd.
  - simpl. by rewrite lookup_empty.
  - apply NoDup_app in Hnd as (Hnd & Hx & _).
    rewrite enumerate_snoc, foldl_snoc. simpl.
    destruct (decide (c = x)) as [->|Hne].
    + rewrite lookup_insert_eq. split.
      * intros [= <-]. by rewrite list_lookup_middle.
      * intros Hi. f_equal.
        destruct (decide (i < length l)) as [Hlt|Hge].
        -- rewrite lookup_app_l in Hi by done.
           exfalso. apply (Hx x); [|by left].
           by apply list_elem_of_lookup_2 in Hi.
        -- apply lookup_lt_Some in Hi. rewrite length_app in Hi. simpl in Hi. lia.
    + rewrite lookup_insert_ne by done. rewrite IH by done.
      destruct (decide (i < length l)) as [Hlt|Hge].
      * by rewrite lookup_app_l.
      * split; intros Hi.
        -- apply lookup_lt_Some in Hi. lia.
        -- rewrite lookup_app_r in Hi by lia.
           destruct (i - length l) as [|n]; simpl in Hi; [congruence|done].
Qed.

(** ** Import *)

Lemma longest_record_texts (texts : list str) (m : nat) :
  longest_record (Text <$> texts) m = (m `max` max_list (length <$> texts), true).
Proof.
  revert m. induction texts as [|t texts IH]; intros m; simpl.
  - f_equal. lia.
  - rewrite IH. f_equal.
    change (list_fmap (list N) nat length texts) with (length <$> texts).
    case_decide; lia.
Qed.

Lemma wrap_records_texts (texts : list str) :
  wrap_records (Text <$> texts) = Some (wrap <$> texts).
Proof. induction texts as [|t texts IH]; csimpl; [done|]. by rewrite IH. Qed.

Lemma wrap_records_Some (lines : list json_line) (ds : list str) :
  wrap_records lines = Some ds -> exists texts, lines = Text <$> texts.
Proof.
  revert ds. induction lines as [|[t|] lines IH]; intros ds; simpl.
  - by exists [].
  - destruct (wrap_records lines) as [ds'|]; [|done].
    intros _. destruct (IH ds' eq_refl) as [texts ->]. by exists (t :: texts).
  - done.
Qed.

Lemma length_wrap (text : str) : length (wrap text) = length text + 3.
Proof. unfold wrap. rewrite !length_app. simpl. lia. Qed.

(** The [try] block on a well-formed array. *)
Lemma import_file_texts (self : RecurrentNet) (fs : file_system) (loc : str)
    (texts : list str) :
  fs loc = Some (Text <$> texts) ->
  let msl := (max_string_length self `max` max_list (length <$> texts)) + 3 in
  import_file self fs loc =
    (with_data (with_max_string_length self msl) (wrap <$> texts),
     [Info (lit "Max record length: " ++ py_str msl)]).
Proof.
  intros Hfs. unfold import_file.
  by rewrite Hfs, longest_record_texts, wrap_records_texts.
Qed.

(** The [try] block only sets [self.data] on a well-formed array. *)
Lemma import_file_data (self self' : RecurrentNet) (fs : file_system) (loc : str)
    (log : list log_entry) (d : list str) :
  import_file self fs loc = (self', log) ->
  data self = None -> data self' = Some d ->
  exists texts, fs loc = Some (Text <$> texts).
Proof.
  unfold import_file. intros Himp Hnone Hd.
  destruct (fs loc) as [lines|]; [|congruence].
  destruct (longest_record lines _) as [msl [|]].
  - destruct (wrap_records lines) as [ds|] eqn:Hw.
    + destruct (wrap_records_Some _ _ Hw) as [texts ->]. by exists texts.
    + injection Himp as <- _. simpl in Hd. congruence.
  - injection Himp as <- _. simpl in Hd. congruence.
Qed.

Lemma get_character_set_new (self : RecurrentNet) (d : list str) :
  data self = Some d ->
  char_to_int_dict self = ∅ -> int_to_char_dict self = ∅ ->
  exists self', get_character_set self = Ok self'
    /\ data self' = Some d
    /\ max_string_length self' = max_string_length self
    /\ unique_char_set self' = Some (sorted_set (concat d))
    /\ (forall c i, char_to_int_dict self' !! c = Some i <-> sorted_set (concat d) !! i = Some c)
    /\ (forall i, int_to_char_dict self' !! i = sorted_set (concat d) !! i).
Proof.
  intros Hd Hc Hi. unfold get_character_set. rewrite Hd, Hc, Hi.
  eexists. split; [done|]. simpl. repeat split; try done.
  - by apply char_to_int_lookup, sorted_set_spec.
  - by apply char_to_int_lookup, sorted_set_spec.
  - apply int_to_char_lookup.
Qed.

Lemma init_session (fs : file_system) (data_source : str) (self : RecurrentNet) :
  RecurrentNet_init fs data_source = Ok self ->
  exists texts ucs, session self texts ucs.
Proof.
  unfold RecurrentNet_init. intros Hinit.
  destruct (import_data new_net fs data_source) as [[self1|e] log] eqn:Himp;
    simpl in Hinit; [|done].
  destruct (data self1) as [d|] eqn:Hd;
    [|by unfold get_character_set in Hinit; rewrite Hd in Hinit].
  assert (exists loc texts, fs loc = Some (Text <$> texts)
            /\ self1 = with_data (with_max_string_length new_net
                                    (max_list (length <$> texts) + 3))
                                 (wrap <$> texts))
    as (loc & texts & Hfs & ->).
  { unfold import_data in Himp.
    repeat case_decide; [| |done];
      destruct (import_file new_net fs _) as [s l] eqn:Hf;
      injection Himp as -> _;
      destruct (import_file_data _ _ _ _ _ _ Hf eq_refl Hd) as [texts Hfs];
      rewrite (import_file_texts _ _ _ _ Hfs) in Hf;
      injection Hf as <- _; eauto. }
  destruct (get_character_set_new
              (with_data (with_max_string_length new_net
                            (max_list (length <$> texts) + 3)) (wrap <$> texts))
              (wrap <$> texts) eq_refl eq_refl eq_refl)
    as (self2 & Hget & Hd2 & Hmsl & Hucs & Hc2i & Hi2c).
  rewrite Hget in Hinit. simpl in Hinit.
  destruct (build_architecture self2) as [[]|] eqn:Hb; simpl in Hinit; [|done].
  injection Hinit as <-.
  exists texts, (sorted_set (concat (wrap <$> texts))).
  split; try done.
  intros ->. unfold build_architecture, getitem in Hb.
  destruct (char_to_int_dict self2 !! NUL) as [k|] eqn:Hk; [|done].
  apply Hc2i in Hk. simpl in Hucs. vm_compute in Hk. by destruct k.
Qed.

(** ** Encoding *)

Lemma first_one_zeros (v o : nat) : first_one o (replicate v 0%Z) = None.
Proof. revert o. induction v as [|v IH]; intros o; simpl; [done|]. apply IH. Qed.

Lemma first_one_onehot (v k o : nat) :
  k < v -> first_one o (onehot v k) = Some (o + k).
Proof.
  unfold onehot. revert k o. induction v as [|v IH]; intros k o Hk; [lia|].
  destruct k as [|k]; simpl.
  - f_equal. lia.
  - rewrite IH by lia. f_equal. lia.
Qed.

Lemma conversion_index_onehot (v k : nat) :
  k < v -> conversion_index (onehot v k) = Some k.
Proof. intros Hk. unfold conversion_index. by rewrite first_one_onehot. Qed.

Lemma length_onehot (v k : nat) : length (onehot v k) = v.
Proof. unfold onehot. by rewrite length_insert, length_replicate. Qed.

Lemma setitem_zeros (v k : nat) :
  k < v -> setitem (replicate v 0%Z) k 1%Z = Ok (onehot v k).
Proof. intros Hk. unfold setitem. by rewrite lookup_replicate_2. Qed.

Lemma setitem_zeros_Ok (v k : nat) (r : list Z) :
  setitem (replicate v 0%Z) k 1%Z = Ok r -> k < v /\ r = onehot v k.
Proof.
  unfold setitem. destruct (replicate v 0%Z !! k) eqn:Hk; [|done].
  intros [= <-]. split; [|done].
  apply lookup_lt_Some in Hk. by rewrite length_replicate in Hk.
Qed.

Lemma ones_zeros (v : nat) : ones (replicate v 0%Z) = 0.
Proof.
  unfold ones. induction v as [|v IH]; [done|].
  cbn [replicate]. by rewrite filter_cons_False.
Qed.

Lemma ones_onehot (v k : nat) : ones (onehot v k) <= 1.
Proof.
  unfold ones, onehot. revert k. induction v as [|v IH]; intros k; [simpl; lia|].
  destruct k as [|k]; cbn [replicate insert list_insert].
  - rewrite filter_cons_True by done. cbn [length].
    fold (ones (replicate v 0%Z)). rewrite ones_zeros. lia.
  - rewrite filter_cons_False by done. apply IH.
Qed.

Lemma convert_to_onehot_fits (self : RecurrentNet) (ucs : list char) (sequence : list nat) :
  unique_char_set self = Some ucs ->
  length sequence <= max_string_length self ->
  Forall (fun k => k < length ucs) sequence ->
  convert_to_onehot self sequence
  = Ok (onehot_rows (max_string_length self) (length ucs) sequence).
Proof.
  intros Hucs Hlen Hks. unfold convert_to_onehot, vocab_size. rewrite Hucs. simpl.
  set (msl := max_string_length self) in *. set (v := length ucs) in *.
  set (f := fun _ _ => _).
  assert (forall n, n <= length sequence ->
            foldM f (zeros msl v) (seq 0 n)
            = Ok ((onehot v <$> take n sequence) ++ replicate (msl - n) (replicate v 0%Z)))
    as Hloop.
  { induction n as [|n IH]; intros Hn.
    - simpl. by rewrite Nat.sub_0_r.
    - rewrite foldM_range_S, IH by lia. simpl. unfold f at 1.
      destruct (lookup_lt_is_Some_2 sequence n) as [k Hk]; [lia|].
      assert (k < v) as Hkv by (eapply Forall_lookup_1 in Hks; eauto).
      assert (length (onehot v <$> take n sequence) = n) as Hpre.
      { rewrite length_fmap, length_take. lia. }
      unfold index.
      rewrite lookup_app_r by lia. rewrite Hpre, Nat.sub_diag.
      replace (msl - n) with (Datatypes.S (msl - Datatypes.S n)) by lia. simpl.
      rewrite Hk. simpl. rewrite setitem_zeros by done. simpl.
      f_equal.
      rewrite <- (Nat.add_0_r n) at 1. rewrite <- Hpre at 1.
      rewrite insert_app_r. simpl.
      rewrite (take_S_r _ _ _ Hk), fmap_app, <- app_assoc. done. }
  rewrite Hloop by done. unfold onehot_rows. by rewrite firstn_all.
Qed.

Lemma length_onehot_rows (msl v : nat) (sequence : list nat) :
  length sequence <= msl -> length (onehot_rows msl v sequence) = msl.
Proof.
  intros. unfold onehot_rows. rewrite length_app, length_fmap, length_replicate. lia.
Qed.

Lemma onehot_rows_lookup_lt (msl v : nat) (sequence : list nat) (i k : nat) :
  sequence !! i = Some k -> onehot_rows msl v sequence !! i = Some (onehot v k).
Proof.
  intros Hk. unfold onehot_rows.
  rewrite lookup_app_l by (rewrite length_fmap; by eapply lookup_lt_Some).
  by rewrite list_lookup_fmap, Hk.
Qed.

Lemma onehot_rows_lookup_ge (msl v : nat) (sequence : list nat) (i : nat) :
  length sequence <= i < msl ->
  onehot_rows msl v sequence !! i = Some (replicate v 0%Z).
Proof.
  intros Hi. unfold onehot_rows.
  rewrite lookup_app_r by (rewrite length_fmap; lia).
  apply lookup_replicate_2. rewrite length_fmap. lia.
Qed.

(** The index sequence of a string over the vocabulary. *)
Lemma int_sequence_session (self : RecurrentNet) (texts : list str) (ucs : list char)
    (r : str) :
  session self texts ucs ->
  Forall (fun c => c ∈ ucs) r ->
  exists sequence,
    int_sequence self r = Ok sequence
    /\ Forall2 (fun c k => ucs !! k = Some c) r sequence.
Proof.
  intros Hs Hr. unfold int_sequence. apply mapM_Forall2.
  eapply Forall_impl; [exact Hr|]. intros c Hc. simpl in Hc.
  apply list_elem_of_lookup in Hc as [k Hk].
  exists k. split; [|done]. unfold getitem.
  by rewrite (proj2 (ses_c2i _ _ _ Hs c k) Hk).
Qed.

Lemma Forall2_vocab_bound (ucs : list char) (r : str) (sequence : list nat) :
  Forall2 (fun c k => ucs !! k = Some c) r sequence ->
  Forall (fun k => k < length ucs) sequence.
Proof.
  induction 1 as [|c k r ks Hk _ IH]; constructor; [|done].
  by eapply lookup_lt_Some.
Qed.

(** ** Facts about a session *)

Lemma elem_of_concat (c : char) (d : list str) :
  c ∈ concat d <-> exists r, r ∈ d /\ c ∈ r.
Proof.
  rewrite list_elem_of_In, in_concat. split; intros (r & Hr & Hc); exists r.
  - by rewrite !list_elem_of_In.
  - by rewrite <- !list_elem_of_In.
Qed.

Section Session.
Context {self : RecurrentNet} {texts : list str} {ucs : list char}.
Hypothesis Hs : session self texts ucs.

Lemma session_vocab_size : vocab_size self = Ok (length ucs).
Proof. unfold vocab_size. by rewrite (ses_ucs _ _ _ Hs). Qed.

Lemma session_elem_of (c : char) : c ∈ ucs <-> c ∈ concat (wrap <$> texts).
Proof. rewrite (ses_vocab _ _ _ Hs). apply sorted_set_spec. Qed.

Lemma session_record_vocab (r : str) : r ∈ wrap <$> texts -> Forall (fun c => c ∈ ucs) r.
Proof.
  intros Hr. apply Forall_forall. intros c Hc.
  apply session_elem_of, elem_of_concat. eauto.
Qed.

Lemma session_record_length (r : str) :
  r ∈ wrap <$> texts -> 3 <= length r <= max_string_length self.
Proof.
  intros Hr. apply list_elem_of_fmap in Hr as (t & -> & Ht).
  rewrite length_wrap, (ses_msl _ _ _ Hs).
  assert (length t <= max_list (length <$> texts)); [|lia].
  apply max_list_elem_of_le, list_elem_of_fmap. eauto.
Qed.

Lemma session_sentinel (c : char) : c ∈ [SOH; STX; NUL] -> c ∈ ucs.
Proof.
  intros Hc. apply session_elem_of, elem_of_concat.
  assert (exists t, t ∈ texts) as [t Ht].
  { generalize (ses_texts _ _ _ Hs). generalize texts.
    intros [|t ts] Hne; [done|]. exists t. by left. }
  exists (wrap t). split; [by apply list_elem_of_fmap_2|].
  unfold wrap. rewrite !elem_of_app, !elem_of_cons in *. tauto.
Qed.

Lemma session_max_string_length : 3 <= max_string_length self.
Proof. rewrite (ses_msl _ _ _ Hs). lia. Qed.

Lemma session_getitem_char (c : char) :
  c ∈ ucs ->
  exists k, getitem (char_to_int_dict self) c = Ok k /\ ucs !! k = Some c
            /\ k < length ucs.
Proof.
  intros Hc. apply list_elem_of_lookup in Hc as [k Hk].
  exists k. unfold getitem. rewrite (proj2 (ses_c2i _ _ _ Hs c k) Hk).
  split; [done|]. split; [done|]. by eapply lookup_lt_Some.
Qed.

Lemma session_getitem_char_Ok (c : char) (k : nat) :
  getitem (char_to_int_dict self) c = Ok k -> ucs !! k = Some c /\ k < length ucs.
Proof.
  unfold getitem. destruct (char_to_int_dict self !! c) as [k'|] eqn:Hk; [|done].
  intros [= ->]. apply (ses_c2i _ _ _ Hs) in Hk. split; [done|].
  by eapply lookup_lt_Some.
Qed.

(** [append_onehot] either replaces a whole row by a one-hot row or, past
    the last row, leaves the array as it was. *)
Lemma append_onehot_session (t : list (list Z)) (i : nat) (c : char) (k : nat) :
  ucs !! k = Some c ->
  append_onehot self t i c = Ok (<[i := onehot (length ucs) k]> t).
Proof.
  intros Hk. unfold append_onehot. rewrite session_vocab_size. simpl.
  unfold getitem. rewrite (proj2 (ses_c2i _ _ _ Hs c k) Hk). simpl.
  rewrite setitem_zeros by (by eapply lookup_lt_Some). simpl.
  destruct (t !! i) eqn:Hi; [done|].
  rewrite list_insert_ge; [done|]. by apply lookup_ge_None.
Qed.

Lemma append_onehot_session_Ok (t t' : list (list Z)) (i : nat) (c : char) :
  append_onehot self t i c = Ok t' ->
  exists k, ucs !! k = Some c /\ k < length ucs
            /\ t' = <[i := onehot (length ucs) k]> t.
Proof.
  intros Ha. pose proof Ha as Ha'.
  unfold append_onehot in Ha. rewrite session_vocab_size in Ha.
  simpl in Ha.
  destruct (getitem (char_to_int_dict self) c) as [k|] eqn:Hk; [|done].
  apply session_getitem_char_Ok in Hk as [Hk Hlt].
  exists k. split; [done|]. split; [done|].
  rewrite (append_onehot_session t i c k Hk) in Ha'. congruence.
Qed.

End Session.

(** ** numpy.argmax *)

Lemma argmax_from_bound (r : list Q) (best_i : nat) (best : Q) (i : nat) :
  best_i < i -> argmax_from best_i best i r < i + length r.
Proof.
  revert best_i best i. induction r as [|x r IH]; intros best_i best i Hlt; simpl.
  - lia.
  - destruct (Qle_bool x best).
    + specialize (IH best_i best (S i)). lia.
    + specialize (IH i x (S i)). lia.
Qed.

Lemma argmax_bound (r : list Q) :
  r <> [] -> exists k, argmax r = Ok k /\ k < length r.
Proof.
  destruct r as [|x r]; [done|]. intros _. simpl. eexists. split; [done|].
  pose proof (argmax_from_bound r 0 x 1). lia.
Qed.

(** ** The sampler *)

Section Sampling.
Context {weights : Type} (predict : weights -> list (list Z) -> list (list Q)).
Context {self : RecurrentNet} {texts : list str} {ucs : list char}.
Hypothesis Hs : session self texts ucs.

Lemma sampling_inv_start :
  exists t, append_onehot self (zeros (max_string_length self) (length ucs)) 0 SOH = Ok t
            /\ sampling_inv self ucs t.
Proof.
  destruct (session_getitem_char Hs SOH) as (k & _ & Hk & Hlt).
  { apply (session_sentinel Hs). by left. }
  eexists. split; [by apply (append_onehot_session Hs)|].
  pose proof (session_max_string_length Hs) as Hmsl.
  unfold zeros. split; [|split].
  - by rewrite length_insert, length_replicate.
  - exists k. split; [done|].
    apply list_lookup_insert_eq. rewrite length_replicate. lia.
  - apply Forall_insert; [|right; eauto].
    apply Forall_replicate. by left.
Qed.

Lemma sampling_inv_write (t : list (list Z)) (i k : nat) :
  sampling_inv self ucs t -> k < length ucs ->
  sampling_inv self ucs (<[S i := onehot (length ucs) k]> t).
Proof.
  intros (Hlen & (k1 & Hk1 & H0) & Hall) Hk. split; [|split].
  - by rewrite length_insert.
  - exists k1. split; [done|]. by rewrite list_lookup_insert_ne.
  - apply Forall_insert; [done|]. right. eauto.
Qed.

Lemma sampling_inv_shape (t : list (list Z)) :
  sampling_inv self ucs t -> Forall (fun r => length r = length ucs) t.
Proof.
  intros (_ & _ & Hall). eapply Forall_impl; [exact Hall|].
  intros r [->|(k & _ & ->)]; [apply length_replicate|apply length_onehot].
Qed.

Lemma sampling_inv_ones (t : list (list Z)) :
  sampling_inv self ucs t -> Forall (fun r => ones r <= 1) t.
Proof.
  intros (_ & _ & Hall). eapply Forall_impl; [exact Hall|].
  intros r [->|(k & _ & ->)]; [rewrite ones_zeros; lia|apply ones_onehot].
Qed.

(** The block raised [e]: either [except IndexError] left the array as it
    was, or the exception escapes and there is no returned array. *)
Ltac raised e := destruct e; simpl; try done; intros [= <-]; by left.

(** The [try] block of a step, whatever the model returns: no change, or
    one whole row after the first replaced by a one-hot row. *)
Lemma predict_next_Ok (w : weights) (t t' : list (list Z)) (idx : nat) :
  predict_next weights predict self w t idx = Ok t' ->
  t' = t \/ exists k, k < length ucs /\ t' = <[idx + 1 := onehot (length ucs) k]> t.
Proof.
  unfold predict_next.
  destruct (index (predict w t) idx) as [r|e]; simpl; [|raised e].
  destruct (argmax r) as [pv|e]; simpl; [|raised e].
  destruct (getitem (int_to_char_dict self) pv) as [c|e]; simpl; [|raised e].
  destruct (append_onehot self t (idx + 1) c) as [t''|e] eqn:Ha; simpl; [|raised e].
  intros [= <-]. right.
  apply (append_onehot_session_Ok Hs) in Ha as (k & _ & Hk & ->). eauto.
Qed.

Lemma predict_next_inv (w : weights) (t t' : list (list Z)) (idx : nat) :
  sampling_inv self ucs t -> predict_next weights predict self w t idx = Ok t' ->
  sampling_inv self ucs t'.
Proof.
  intros Hinv [->|(k & Hk & ->)]%predict_next_Ok; [done|].
  rewrite Nat.add_1_r. by apply sampling_inv_write.
Qed.

(** On a model of the right shape the [try] block never raises. *)
Lemma predict_next_total (w : weights) (t : list (list Z)) (idx : nat) :
  well_shaped predict (max_string_length self) (length ucs) ->
  sampling_inv self ucs t ->
  exists k, k < length ucs
    /\ predict_next weights predict self w t idx
       = Ok (if decide (idx < max_string_length self)
             then <[idx + 1 := onehot (length ucs) k]> t else t).
Proof.
  intros Hshape Hinv.
  destruct (Hshape w t) as [Hlen Hrows];
    [apply Hinv|by apply sampling_inv_shape|].
  destruct Hinv as (_ & (k1 & Hk1 & _) & _).
  assert (0 < length ucs) as Hpos by (apply lookup_lt_Some in Hk1; lia).
  unfold predict_next, index. case_decide as Hidx.
  - destruct (lookup_lt_is_Some_2 (predict w t) idx) as [r Hr]; [lia|].
    rewrite Hr. simpl.
    assert (length r = length ucs) as Hr' by (eapply Forall_lookup_1 in Hrows; eauto).
    destruct (argmax_bound r) as (pv & -> & Hpv);
      [intros ->; simpl in Hr'; lia|]. simpl.
    destruct (lookup_lt_is_Some_2 ucs pv) as [c Hc]; [lia|].
    unfold getitem. rewrite (ses_i2c _ _ _ Hs), Hc. simpl.
    rewrite (append_onehot_session Hs _ _ _ _ Hc). simpl.
    exists pv. split; [lia|done].
  - rewrite lookup_ge_None_2 by lia. simpl. exists 0. by split.
Qed.

Lemma generate_steps_0 (w : weights) :
  exists t, generate_steps weights predict self w 0 = Ok (t, ([], []))
            /\ sampling_inv self ucs t.
Proof.
  unfold generate_steps. rewrite (session_vocab_size Hs). cbn [bind].
  destruct sampling_inv_start as (t0 & -> & Hinv0). cbn. eauto.
Qed.

Lemma generate_steps_S (w : weights) (n : nat) :
  generate_steps weights predict self w (S n)
  = (st <~ generate_steps weights predict self w n;
     generate_step weights predict self w st n).
Proof.
  unfold generate_steps. destruct (vocab_size self) as [v|]; cbn [bind]; [|done].
  destruct (append_onehot self _ 0 SOH) as [t0|]; cbn [bind]; [|done].
  apply foldM_range_S.
Qed.

(** Every state the sampling loop reaches satisfies the invariant. *)
Lemma generate_steps_inv (w : weights) (n : nat) (t : list (list Z)) (s : list N * list N) :
  generate_steps weights predict self w n = Ok (t, s) -> sampling_inv self ucs t.
Proof.
  revert t s. induction n as [|n IH]; intros t s.
  - destruct (generate_steps_0 w) as (t0 & -> & Hinv). by intros [= <- _].
  - rewrite generate_steps_S.
    destruct (generate_steps _ _ _ _ n) as [[t1 s1]|]; cbn [bind]; [|done].
    unfold generate_step. cbn [fst].
    destruct (predict_next _ _ _ _ t1 n) as [t2|] eqn:Hp; cbn [bind]; [|done].
    intros [= <- _]. eapply predict_next_inv; [|exact Hp]. by eapply IH.
Qed.

Lemma generate_steps_total (w : weights) (n : nat) :
  well_shaped predict (max_string_length self) (length ucs) ->
  exists t s, generate_steps weights predict self w n = Ok (t, s).
Proof.
  intros Hshape. induction n as [|n (t & s & IH)].
  - destruct (generate_steps_0 w) as (t0 & -> & _). eauto.
  - pose proof (generate_steps_inv _ _ _ _ IH) as Hinv.
    rewrite generate_steps_S, IH. cbn [bind]. unfold generate_step. cbn [fst].
    destruct (predict_next_total w t n Hshape Hinv) as (k & _ & ->).
    cbn [bind]. eauto.
Qed.

End Sampling.

Lemma mapM_app {A B} (f : A -> result B) (l k : list A) :
  mapM f (l ++ k) = (a <~ mapM f l; b <~ mapM f k; Ok (a ++ b)).
Proof.
  induction l as [|x l IH]; simpl.
  - by destruct (mapM f k).
  - destruct (f x); simpl; [|done]. rewrite IH.
    destruct (mapM f l); simpl; [|done]. by destruct (mapM f k).
Qed.

Lemma session_unique (self : RecurrentNet) (texts : list str) (ucs ucs' : list char) :
  session self texts ucs -> unique_char_set self = Some ucs' -> ucs = ucs'.
Proof. intros Hs Hu. rewrite (ses_ucs _ _ _ Hs) in Hu. congruence. Qed.

(** ** Round trip of encoding and decoding *)

(** C1. For a constructed object and every string [r] over its vocabulary
    that is no longer than [max_string_length], the one-hot array of [r] is
    built without error; at each position [i < len(r)] the column holding 1
    is the vocabulary index of [r[i]] (and maps back to [r[i]]), and at each
    position from [len(r)] up to [max_string_length] the row is all zero, so
    no column is found. *)
Theorem encode_decode_roundtrip (fs : file_system) (data_source : str)
    (self : RecurrentNet) (ucs : list char) (r : str) :
  RecurrentNet_init fs data_source = Ok self ->
  unique_char_set self = Some ucs ->
  length r <= max_string_length self ->
  Forall (fun c => c ∈ ucs) r ->
  exists sequence t,
    int_sequence self r = Ok sequence
    /\ convert_to_onehot self sequence = Ok t
    /\ length t = max_string_length self
    /\ (forall i c, r !! i = Some c ->
          exists row k, t !! i = Some row
            /\ conversion_index row = Some k
            /\ char_to_int_dict self !! c = Some k
            /\ int_to_char_dict self !! k = Some c)
    /\ (forall i, length r <= i < max_string_length self ->
          exists row, t !! i = Some row
            /\ conversion_index row = None
            /\ Forall (fun x => x = 0%Z) row).
Proof.
  intros (texts & ucs' & Hs)%init_session Hucs Hlen Hr.
  rewrite <- (session_unique _ _ _ _ Hs Hucs) in *. clear Hucs.
  destruct (int_sequence_session _ _ _ _ Hs Hr) as (sequence & Hseq & HF).
  pose proof (Forall2_length _ _ _ HF) as Hlen'.
  exists sequence, (onehot_rows (max_string_length self) (length ucs') sequence).
  split; [done|]. split.
  { apply convert_to_onehot_fits; [apply Hs|lia|by eapply Forall2_vocab_bound]. }
  split; [apply length_onehot_rows; lia|]. split.
  - intros i c Hi.
    destruct (Forall2_lookup_l _ _ _ _ _ HF Hi) as (k & Hk & Hkc).
    exists (onehot (length ucs') k), k.
    split; [by apply onehot_rows_lookup_lt|].
    split; [apply conversion_index_onehot; by eapply lookup_lt_Some|].
    split; [by apply (ses_c2i _ _ _ Hs)|by rewrite (ses_i2c _ _ _ Hs)].
  - intros i Hi. exists (replicate (length ucs') 0%Z).
    split; [apply onehot_rows_lookup_ge; lia|].
    split; [apply first_one_zeros|by apply Forall_replicate].
Qed.

Lemma encode_decode_roundtrip_witness :
  exists sequence t,
    int_sequence example_net (lit "hi") = Ok sequence
    /\ convert_to_onehot example_net sequence = Ok t
    /\ length t = max_string_length example_net
    /\ (forall i c, lit "hi" !! i = Some c ->
          exists row k, t !! i = Some row
            /\ conversion_index row = Some k
            /\ char_to_int_dict example_net !! c = Some k
            /\ int_to_char_dict example_net !! k = Some c)
    /\ (forall i, length (lit "hi") <= i < max_string_length example_net ->
          exists row, t !! i = Some row
            /\ conversion_index row = None
            /\ Forall (fun x => x = 0%Z) row).
Proof.
  apply (encode_decode_roundtrip example_fs (lit "trump") example_net example_ucs).
  - vm_compute. reflexivity.
  - reflexivity.
  - vm_compute. lia.
  - apply (bool_decide_unpack _). vm_compute. reflexivity.
Defined.

(** ** The shifted target *)

Lemma target_sequence_session (self : RecurrentNet) (texts : list str)
    (ucs : list char) (r : str) :
  session self texts ucs ->
  r <> [] ->
  length r <= max_string_length self ->
  Forall (fun c => c ∈ ucs) r ->
  exists input target features targets,
    int_sequence self r = Ok input
    /\ target_sequence self r = Ok target
    /\ length target = length r
    /\ int_sequence self (drop 1 r ++ [NUL]) = Ok target
    /\ convert_to_onehot self input = Ok features
    /\ convert_to_onehot self target = Ok targets
    /\ forall i, i < length r - 1 ->
         exists row, targets !! i = Some row /\ features !! (i + 1) = Some row.
Proof.
  intros Hs Hne Hlen Hr.
  destruct r as [|c0 r]; [done|]. clear Hne.
  destruct (int_sequence_session _ _ _ _ Hs Hr) as (input & Hin & HF).
  destruct (Forall2_cons_inv_l _ _ _ _ HF) as (k0 & ks & Hk0 & HFks & ->).
  destruct (session_getitem_char Hs NUL) as (pad & Hpad & Hpadk & Hpadlt).
  { apply (session_sentinel Hs). by do 2 right; left. }
  assert (int_sequence self r = Ok ks) as Hks.
  { unfold int_sequence in *. simpl in Hin.
    destruct (getitem (char_to_int_dict self) c0); simpl in Hin; [|done].
    destruct (mapM _ r); simpl in Hin; congruence. }
  pose proof (Forall2_length _ _ _ HFks) as Hlenks. simpl in Hlen.
  exists (k0 :: ks), (ks ++ [pad]),
    (onehot_rows (max_string_length self) (length ucs) (k0 :: ks)),
    (onehot_rows (max_string_length self) (length ucs) (ks ++ [pad])).
  split; [done|]. split.
  { unfold target_sequence. rewrite Hin. simpl. by rewrite Hpad. }
  split; [rewrite length_app; simpl; lia|]. split.
  { unfold int_sequence in *. simpl. rewrite drop_0, mapM_app, Hks. simpl.
    by rewrite Hpad. }
  split.
  { apply convert_to_onehot_fits; [apply Hs|simpl; lia|].
    by eapply Forall2_vocab_bound. }
  split.
  { apply convert_to_onehot_fits; [apply Hs|rewrite length_app; simpl; lia|].
    apply Forall_app. split; [by eapply Forall2_vocab_bound|].
    by apply Forall_singleton. }
  intros i Hi. simpl in Hi.
  destruct (lookup_lt_is_Some_2 ks i) as [k Hk]; [lia|].
  exists (onehot (length ucs) k). split.
  - apply onehot_rows_lookup_lt. by rewrite lookup_app_l by lia.
  - apply onehot_rows_lookup_lt. by rewrite Nat.add_1_r.
Qed.

(** C3. For a constructed object and every non-empty record [r] over its
    vocabulary that fits [max_string_length] (every wrapped record is such),
    the target sequence [train] builds from [r] has the length of [r], is the
    index sequence of [r[1:]] followed by the pad sentinel, and its one-hot
    array has at each position [i < len(r) - 1] the row that the one-hot
    array of [r] has at position [i + 1]. *)
Theorem shift_invariant (fs : file_system) (data_source : str)
    (self : RecurrentNet) (ucs : list char) (r : str) :
  RecurrentNet_init fs data_source = Ok self ->
  unique_char_set self = Some ucs ->
  r <> [] ->
  length r <= max_string_length self ->
  Forall (fun c => c ∈ ucs) r ->
  exists input target features targets,
    int_sequence self r = Ok input
    /\ target_sequence self r = Ok target
    /\ length target = length r
    /\ int_sequence self (drop 1 r ++ [NUL]) = Ok target
    /\ convert_to_onehot self input = Ok features
    /\ convert_to_onehot self target = Ok targets
    /\ forall i, i < length r - 1 ->
         exists row, targets !! i = Some row /\ features !! (i + 1) = Some row.
Proof.
  intros (texts & ucs' & Hs)%init_session Hucs Hne Hlen Hr.
  rewrite <- (session_unique _ _ _ _ Hs Hucs) in *. clear Hucs.
  by eapply target_sequence_session.
Qed.

Lemma shift_invariant_witness :
  exists input target features targets,
    int_sequence example_net (wrap (lit "hi")) = Ok input
    /\ target_sequence example_net (wrap (lit "hi")) = Ok target
    /\ length target = length (wrap (lit "hi"))
    /\ int_sequence example_net (drop 1 (wrap (lit "hi")) ++ [NUL]) = Ok target
    /\ convert_to_onehot example_net input = Ok features
    /\ convert_to_onehot example_net target = Ok targets
    /\ forall i, i < length (wrap (lit "hi")) - 1 ->
         exists row, targets !! i = Some row /\ features !! (i + 1) = Some row.
Proof.
  apply (shift_invariant example_fs (lit "trump") example_net example_ucs).
  - vm_compute. reflexivity.
  - reflexivity.
  - vm_compute. discriminate.
  - vm_compute. lia.
  - apply (bool_decide_unpack _). vm_compute. reflexivity.
Defined.

(** ** The record length *)

(** C4. Importing a known data source whose file holds the texts [texts]
    (empty or not), on an object whose [max_string_length] is still 0 as
    [__init__] leaves it, sets [max_string_length]
    to the greatest text length plus 3 and [data] to the texts wrapped as
    ['\1' + text + '\2' + '\0']; every wrapped record is then at most
    [max_string_length] long. *)
Theorem max_string_length_computation (self : RecurrentNet) (fs : file_system)
    (data_source file_location : str) (texts : list str) :
  max_string_length self = 0 ->
  (data_source = lit "trump" /\ file_location = lit "Documents/trump_tweets_2017.json"
   \/ data_source = lit "alice" /\ file_location = lit "Documents/alice.json") ->
  fs file_location = Some (Text <$> texts) ->
  exists self' log,
    import_data self fs data_source = (Ok self', log)
    /\ max_string_length self' = max_list (length <$> texts) + 3
    /\ data self' = Some ((fun text => [SOH] ++ text ++ [STX] ++ [NUL]) <$> texts)
    /\ Forall (fun r => length r <= max_string_length self')
              ((fun text => [SOH] ++ text ++ [STX] ++ [NUL]) <$> texts).
Proof.
  intros Hzero Hsrc Hfs.
  pose proof (import_file_texts self fs file_location texts Hfs) as Himp.
  rewrite Hzero in Himp. simpl in Himp.
  assert (Forall (fun r => length r <= max_list (length <$> texts) + 3) (wrap <$> texts))
    as Hall.
  { apply Forall_fmap, Forall_forall. intros t Ht. unfold compose. rewrite length_wrap.
    assert (length t <= max_list (length <$> texts)); [|lia].
    apply max_list_elem_of_le, list_elem_of_fmap. eauto. }
  unfold import_data.
  destruct Hsrc as [[-> ->]|[-> ->]].
  - rewrite decide_True by done. rewrite Himp. eauto 10.
  - rewrite decide_False by (by vm_compute).
    rewrite decide_True by done. rewrite Himp. eauto 10.
Qed.

Lemma max_string_length_computation_witness :
  exists self' log,
    import_data new_net example_lengths_fs (lit "alice") = (Ok self', log)
    /\ max_string_length self' = 15
    /\ data self' = Some ((fun text => [SOH] ++ text ++ [STX] ++ [NUL]) <$> example_texts)
    /\ Forall (fun r => length r <= max_string_length self')
              ((fun text => [SOH] ++ text ++ [STX] ++ [NUL]) <$> example_texts).
Proof.
  apply (max_string_length_computation new_net example_lengths_fs (lit "alice")
           (lit "Documents/alice.json") example_texts).
  - reflexivity.
  - right. split; reflexivity.
  - vm_compute. reflexivity.
Defined.

(** ** The vocabulary dictionaries *)

(** C7. On an object holding the records [d] and two empty dictionaries,
    [get_character_set] returns; [unique_char_set] is then the strictly
    increasing list of the characters of the joined records, and the two
    dictionaries are mutually inverse bijections between that list and the
    indices below its length: each character has an index below the length
    that maps back to it, each index below the length is a key that maps to a
    character whose index it is, and neither dictionary has other keys. *)
Theorem vocabulary_bijection (self : RecurrentNet) (d : list str) :
  data self = Some d ->
  char_to_int_dict self = ∅ ->
  int_to_char_dict self = ∅ ->
  exists self' ucs,
    get_character_set self = Ok self'
    /\ unique_char_set self' = Some ucs
    /\ StronglySorted N.lt ucs
    /\ (forall c, c ∈ ucs <-> c ∈ concat d)
    /\ (forall c, c ∈ ucs ->
          exists i, char_to_int_dict self' !! c = Some i /\ i < length ucs
                    /\ int_to_char_dict self' !! i = Some c)
    /\ (forall i, i < length ucs ->
          exists c, int_to_char_dict self' !! i = Some c /\ c ∈ ucs
                    /\ char_to_int_dict self' !! c = Some i)
    /\ (forall c i, char_to_int_dict self' !! c = Some i -> c ∈ ucs /\ i < length ucs)
    /\ (forall i c, int_to_char_dict self' !! i = Some c -> i < length ucs /\ c ∈ ucs).
Proof.
  intros Hd Hc Hi.
  destruct (get_character_set_new self d Hd Hc Hi)
    as (self' & Hget & _ & _ & Hucs & Hc2i & Hi2c).
  destruct (sorted_set_spec (concat d)) as (Hsorted & _ & Hmem).
  exists self', (sorted_set (concat d)).
  repeat (split; [done|]). split; [|split; [|split]].
  - intros c [i Hci]%list_elem_of_lookup. exists i.
    split; [by apply Hc2i|]. split; [by eapply lookup_lt_Some|by rewrite Hi2c].
  - intros i [c Hci]%lookup_lt_is_Some_2. exists c.
    split; [by rewrite Hi2c|]. split; [by eapply list_elem_of_lookup_2|by apply Hc2i].
  - intros c i Hci%Hc2i.
    split; [by eapply list_elem_of_lookup_2|by eapply lookup_lt_Some].
  - intros i c Hci. rewrite Hi2c in Hci.
    split; [by eapply lookup_lt_Some|by eapply list_elem_of_lookup_2].
Qed.

Lemma vocabulary_bijection_witness :
  exists self' ucs,
    get_character_set (with_data new_net [wrap (lit "hi"); wrap (lit "yo")]) = Ok self'
    /\ unique_char_set self' = Some ucs
    /\ StronglySorted N.lt ucs
    /\ (forall c, c ∈ ucs <-> c ∈ concat [wrap (lit "hi"); wrap (lit "yo")])
    /\ (forall c, c ∈ ucs ->
          exists i, char_to_int_dict self' !! c = Some i /\ i < length ucs
                    /\ int_to_char_dict self' !! i = Some c)
    /\ (forall i, i < length ucs ->
          exists c, int_to_char_dict self' !! i = Some c /\ c ∈ ucs
                    /\ char_to_int_dict self' !! c = Some i)
    /\ (forall c i, char_to_int_dict self' !! c = Some i -> c ∈ ucs /\ i < length ucs)
    /\ (forall i c, int_to_char_dict self' !! i = Some c -> i < length ucs /\ c ∈ ucs).
Proof.
  apply (vocabulary_bijection (with_data new_net [wrap (lit "hi"); wrap (lit "yo")])
           [wrap (lit "hi"); wrap (lit "yo")]); reflexivity.
Defined.

(** ** Failures of the import *)

(** An unknown data source ends the process: one error is logged and
    [exit(1)] is raised. *)
Lemma import_data_unknown_source (self : RecurrentNet) (fs : file_system) (data_source : str) :
  data_source <> lit "trump" -> data_source <> lit "alice" ->
  import_data self fs data_source
  = (Raise (SystemExit 1), [Error (lit "Unknown data source.")]).
Proof. intros H1 H2. unfold import_data. by rewrite !decide_False. Qed.

(** A known data source whose file cannot be opened or parsed: the handler
    logs and the method returns the object as it was. *)
Lemma import_file_unreadable (self : RecurrentNet) (fs : file_system) (loc : str) :
  fs loc = None -> import_file self fs loc = (self, read_error_log).
Proof. intros Hfs. unfold import_file. by rewrite Hfs. Qed.

Lemma import_data_never_exits_on_known_source (self : RecurrentNet) (fs : file_system)
    (data_source : str) :
  data_source = lit "trump" \/ data_source = lit "alice" ->
  exists self' log, import_data self fs data_source = (Ok self', log).
Proof.
  intros [-> | ->]; unfold import_data.
  - rewrite decide_True by done. destruct (import_file _ _ _). eauto.
  - rewrite decide_False by (by vm_compute). rewrite decide_True by done.
    destruct (import_file _ _ _). eauto.
Qed.

(** C2. With a known data source whose file cannot be opened, [import_data]
    logs the error and returns normally, leaving [data] unset; the
    constructor then goes on to [get_character_set], which raises
    [TypeError].  The import itself does not end the process as it does for
    an unknown data source. *)
Theorem import_data_unreadable_file_returns :
  import_data new_net no_files (lit "trump")
  = (Ok new_net,
     [Info (lit "Using Trump Tweet Dataset.");
      Error (lit "Error reading file.");
      Error (lit "<class 'Exception'>")])
  /\ import_data new_net no_files (lit "bogus")
     = (Raise (SystemExit 1), [Error (lit "Unknown data source.")])
  /\ get_character_set new_net = Raise TypeError
  /\ RecurrentNet_init no_files (lit "trump") = Raise TypeError.
Proof. repeat split. Qed.

(** ** The sampler: displayed strings *)

Lemma display_chars_prefix (self : RecurrentNet) (rows : list (list Z)) (ints chars : str) :
  exists suffix, snd (display self rows ints chars) = chars ++ suffix.
Proof.
  revert ints chars. induction rows as [|r rows IH]; intros ints chars; simpl.
  - exists []. by rewrite app_nil_r.
  - destruct (conversion_index r) as [k|]; [|exists []; by rewrite app_nil_r].
    destruct (int_to_char_dict self !! k) as [c|]; [|exists []; by rewrite app_nil_r].
    destruct (IH (ints ++ py_str k ++ lit " ") (chars ++ [c])) as [suffix ->].
    exists ([c] ++ suffix). by rewrite app_assoc.
Qed.

Section Display.
Context {weights : Type} (predict : weights -> list (list Z) -> list (list Q)).
Context {self : RecurrentNet} {texts : list str} {ucs : list char}.
Hypothesis Hs : session self texts ucs.

Lemma display_start (t : list (list Z)) :
  sampling_inv self ucs t ->
  head (snd (display self t [] [])) = Some SOH.
Proof.
  intros (_ & (k & Hk & H0) & _).
  destruct t as [|r0 t]; [done|]. simpl in H0. injection H0 as ->.
  cbn [display]. rewrite conversion_index_onehot by (by eapply lookup_lt_Some).
  rewrite (ses_i2c _ _ _ Hs), Hk.
  by destruct (display_chars_prefix self t ([] ++ py_str k ++ lit " ") ([] ++ [SOH]))
    as [suffix ->].
Qed.

Lemma generate_steps_strings (w : weights) (n : nat) (t : list (list Z)) (s : str * str) :
  generate_steps weights predict self w (S n) = Ok (t, s) -> s = display self t [] [].
Proof.
  rewrite generate_steps_S.
  destruct (generate_steps _ _ _ _ n) as [[t1 s1]|]; cbn [bind]; [|done].
  unfold generate_step.
  destruct (predict_next _ _ _ _ _ n) as [t2|]; cbn [bind]; [|done].
  by intros [= <- <-].
Qed.

Lemma generate_text_head (w : weights) (ints chars : str) :
  generate_text weights predict self w = Ok (ints, chars) -> head chars = Some SOH.
Proof.
  unfold generate_text.
  destruct (generate_steps _ _ _ _ _) as [[t s]|] eqn:Hg; cbn [bind]; [|done].
  cbn [snd]. intros [= ->].
  pose proof (generate_steps_inv predict Hs _ _ _ _ Hg) as Hinv.
  pose proof (session_max_string_length Hs) as Hmsl.
  destruct (max_string_length self) as [|m] eqn:Hm; [lia|].
  apply generate_steps_strings in Hg.
  pose proof (display_start t Hinv) as Hhead. by rewrite <- Hg in Hhead.
Qed.

Lemma generate_text_total (w : weights) :
  well_shaped predict (max_string_length self) (length ucs) ->
  exists ints chars, generate_text weights predict self w = Ok (ints, chars).
Proof.
  intros Hshape. unfold generate_text.
  destruct (generate_steps_total predict Hs w (max_string_length self) Hshape)
    as (t & [ints chars] & ->).
  cbn. eauto.
Qed.

End Display.

Lemma last_symbol_model_shaped (msl v : nat) :
  0 < v -> well_shaped (last_symbol_model msl v) msl v.
Proof.
  intros Hv w t _ _. unfold last_symbol_model. split.
  - apply length_replicate.
  - apply Forall_replicate. rewrite length_app, length_replicate. simpl. lia.
Qed.

(** On the two-record example this model fills every row after the first
    with the last symbol, ['y']. *)
Example generate_text_last_symbol :
  generate_text unit (last_symbol_model 5 7) example_net tt
  = Ok (lit "1 6 6 6 6 ", [SOH; 121; 121; 121; 121]%N).
Proof. vm_compute. reflexivity. Qed.

(** ** Bounds safety of the sampler *)

(** C5. For a constructed object and every model whose output has the shape
    the network was built with (one distribution over the vocabulary for
    each of the [max_string_length] positions), [generate_text] returns
    without raising after all its steps; in the last step the write at row
    [max_string_length] changes nothing and raises nothing, and more
    generally [append_onehot] at that row returns the array unchanged. *)
Theorem sampler_bounds_safety {weights : Type}
    (predict : weights -> list (list Z) -> list (list Q))
    (fs : file_system) (data_source : str) (self : RecurrentNet) (ucs : list char)
    (w : weights) :
  RecurrentNet_init fs data_source = Ok self ->
  unique_char_set self = Some ucs ->
  well_shaped predict (max_string_length self) (length ucs) ->
  (exists ints chars, generate_text weights predict self w = Ok (ints, chars))
  /\ (exists t s s',
        generate_steps weights predict self w (max_string_length self - 1) = Ok (t, s)
        /\ predict_next weights predict self w t (max_string_length self - 1) = Ok t
        /\ generate_steps weights predict self w (max_string_length self) = Ok (t, s'))
  /\ (forall t c, c ∈ ucs -> length t = max_string_length self ->
        append_onehot self t (max_string_length self) c = Ok t).
Proof.
  intros (texts & ucs' & Hs)%init_session Hucs Hshape.
  rewrite <- (session_unique _ _ _ _ Hs Hucs) in *. clear Hucs.
  split; [by eapply generate_text_total|]. split.
  - pose proof (session_max_string_length Hs) as Hmsl.
    destruct (max_string_length self) as [|m] eqn:Hm; [lia|].
    replace (S m - 1) with m by lia.
    destruct (generate_steps_total predict Hs w m) as (t & s & Hg);
      [by rewrite Hm|].
    pose proof (generate_steps_inv predict Hs _ _ _ _ Hg) as Hinv.
    destruct (predict_next_total predict Hs w t m) as (k & _ & Hp);
      [by rewrite Hm|done|].
    rewrite Hm, decide_True in Hp by lia.
    rewrite list_insert_ge in Hp by (destruct Hinv as [-> _]; lia).
    exists t, s, (display self t [] []).
    split; [done|]. split; [done|].
    rewrite generate_steps_S, Hg. cbn [bind]. unfold generate_step. cbn [fst].
    by rewrite Hp.
  - intros t c [k Hk]%list_elem_of_lookup Hlen.
    rewrite (append_onehot_session Hs _ _ _ _ Hk).
    by rewrite list_insert_ge by lia.
Qed.

Lemma sampler_bounds_safety_witness :
  (exists ints chars,
     generate_text unit (last_symbol_model 5 7) example_net tt = Ok (ints, chars))
  /\ (exists t s s',
        generate_steps unit (last_symbol_model 5 7) example_net tt
          (max_string_length example_net - 1) = Ok (t, s)
        /\ predict_next unit (last_symbol_model 5 7) example_net tt t
             (max_string_length example_net - 1) = Ok t
        /\ generate_steps unit (last_symbol_model 5 7) example_net tt
             (max_string_length example_net) = Ok (t, s'))
  /\ (forall t c, c ∈ example_ucs -> length t = max_string_length example_net ->
        append_onehot example_net t (max_string_length example_net) c = Ok t).
Proof.
  apply (sampler_bounds_safety (last_symbol_model 5 7) example_fs (lit "trump")
           example_net example_ucs tt).
  - vm_compute. reflexivity.
  - reflexivity.
  - apply last_symbol_model_shaped. simpl. lia.
Defined.

(** ** The sampling array *)

(** C9. For a constructed object and every model, in every state that the
    sampling loop of [generate_text] reaches (after any number of steps), row
    0 of the array is the one-hot row of the start sentinel and every row
    has at most one entry equal to 1; the character string [generate_text]
    returns starts with the start sentinel, in particular whenever it is
    non-empty.  On a model of the right shape every such state is reached. *)
Theorem sampling_tensor_invariant {weights : Type}
    (predict : weights -> list (list Z) -> list (list Q))
    (fs : file_system) (data_source : str) (self : RecurrentNet) (ucs : list char)
    (w : weights) :
  RecurrentNet_init fs data_source = Ok self ->
  unique_char_set self = Some ucs ->
  (forall n t s,
     generate_steps weights predict self w n = Ok (t, s) ->
     (exists k, char_to_int_dict self !! SOH = Some k
                /\ t !! 0 = Some (<[k := 1%Z]> (replicate (length ucs) 0%Z)))
     /\ Forall (fun r => length (filter (fun x => x = 1%Z) r) <= 1) t)
  /\ (forall ints chars,
        generate_text weights predict self w = Ok (ints, chars) ->
        head chars = Some SOH /\ (chars <> [] -> head chars = Some SOH))
  /\ (well_shaped predict (max_string_length self) (length ucs) ->
      forall n, exists t s, generate_steps weights predict self w n = Ok (t, s)).
Proof.
  intros (texts & ucs' & Hs)%init_session Hucs.
  rewrite <- (session_unique _ _ _ _ Hs Hucs) in *. clear Hucs.
  split; [|split].
  - intros n t s Hg.
    pose proof (generate_steps_inv predict Hs _ _ _ _ Hg) as Hinv.
    split; [|exact (sampling_inv_ones _ Hinv)].
    destruct Hinv as (_ & (k & Hk & H0) & _).
    exists k. split; [by apply (ses_c2i _ _ _ Hs)|done].
  - intros ints chars Hg.
    pose proof (generate_text_head predict Hs _ _ _ Hg). done.
  - intros Hshape n. by apply (generate_steps_total predict Hs).
Qed.

Lemma sampling_tensor_invariant_witness :
  (forall n t s,
     generate_steps unit (last_symbol_model 5 7) example_net tt n = Ok (t, s) ->
     (exists k, char_to_int_dict example_net !! SOH = Some k
                /\ t !! 0 = Some (<[k := 1%Z]> (replicate (length example_ucs) 0%Z)))
     /\ Forall (fun r => length (filter (fun x => x = 1%Z) r) <= 1) t)
  /\ (forall ints chars,
        generate_text unit (last_symbol_model 5 7) example_net tt = Ok (ints, chars) ->
        head chars = Some SOH /\ (chars <> [] -> head chars = Some SOH))
  /\ (well_shaped (last_symbol_model 5 7) (max_string_length example_net)
        (length example_ucs) ->
      forall n, exists t s,
        generate_steps unit (last_symbol_model 5 7) example_net tt n = Ok (t, s)).
Proof.
  apply (sampling_tensor_invariant (last_symbol_model 5 7) example_fs (lit "trump")
           example_net example_ucs tt).
  - vm_compute. reflexivity.
  - reflexivity.
Defined.

(** ** Determinism of the sampler *)

Lemma bind_assoc {A B C} (m : result A) (f : A -> result B) (g : B -> result C) :
  (y <~ (x <~ m; f x); g y) = (x <~ m; y <~ f x; g y).
Proof. by destruct m. Qed.

Lemma append_onehot_congr (self1 self2 : RecurrentNet) (t : list (list Z)) (i : nat) (c : char) :
  unique_char_set self1 = unique_char_set self2 ->
  char_to_int_dict self1 = char_to_int_dict self2 ->
  append_onehot self1 t i c = append_onehot self2 t i c.
Proof. intros H1 H2. unfold append_onehot, vocab_size. by rewrite H1, H2. Qed.

Lemma display_congr (self1 self2 : RecurrentNet) (rows : list (list Z)) (ints chars : str) :
  int_to_char_dict self1 = int_to_char_dict self2 ->
  display self1 rows ints chars = display self2 rows ints chars.
Proof.
  intros H. revert ints chars. induction rows as [|r rows IH]; intros ints chars; simpl.
  - done.
  - rewrite H. destruct (conversion_index r) as [k|]; [|done].
    destruct (int_to_char_dict self2 !! k); [apply IH|done].
Qed.

(** C6. The value of [generate_text] is a function of the vocabulary (the
    character list, the length bound and the two dictionaries) and of the
    arg-max of the model's prediction at each position: two calls on objects
    that agree on the former, with models that agree on the latter, return
    the same pair of strings (or raise the same exception). *)
Theorem sampler_determinism {weights1 weights2 : Type}
    (predict1 : weights1 -> list (list Z) -> list (list Q))
    (predict2 : weights2 -> list (list Z) -> list (list Q))
    (self1 self2 : RecurrentNet) (w1 : weights1) (w2 : weights2) :
  unique_char_set self1 = unique_char_set self2 ->
  max_string_length self1 = max_string_length self2 ->
  char_to_int_dict self1 = char_to_int_dict self2 ->
  int_to_char_dict self1 = int_to_char_dict self2 ->
  (forall t idx,
     (r <~ index (predict1 w1 t) idx; argmax r)
     = (r <~ index (predict2 w2 t) idx; argmax r)) ->
  generate_text weights1 predict1 self1 w1 = generate_text weights2 predict2 self2 w2.
Proof.
  intros Hucs Hmsl Hc2i Hi2c Hpred.
  assert (forall t idx, predict_next weights1 predict1 self1 w1 t idx
                        = predict_next weights2 predict2 self2 w2 t idx) as Hnext.
  { intros t idx. unfold predict_next. f_equal.
    rewrite <- !(bind_assoc (index _ idx) argmax). rewrite Hpred, Hi2c.
    assert (forall m : result nat,
              (pv <~ m; c <~ getitem (int_to_char_dict self2) pv;
               append_onehot self1 t (idx + 1) c)
              = (pv <~ m; c <~ getitem (int_to_char_dict self2) pv;
                 append_onehot self2 t (idx + 1) c)) as Hsame; [|apply Hsame].
    intros [pv|]; cbn [bind]; [|done].
    destruct (getitem (int_to_char_dict self2) pv) as [c|]; cbn [bind]; [|done].
    by apply append_onehot_congr. }
  unfold generate_text, generate_steps, vocab_size. rewrite Hucs, Hmsl.
  destruct (unique_char_set self2) as [ucs|] eqn:Hucs2; cbn [bind]; [|done].
  rewrite (append_onehot_congr self1 self2) by congruence.
  destruct (append_onehot self2 _ 0 SOH) as [t0|]; cbn [bind]; [|done].
  f_equal. apply foldM_ext. intros [t s] idx. unfold generate_step. cbn [fst].
  rewrite Hnext.
  destruct (predict_next weights2 predict2 self2 w2 t idx) as [t'|]; cbn [bind]; [|done].
  by rewrite (display_congr self1 self2).
Qed.

Lemma sampler_determinism_witness :
  generate_text unit (last_symbol_model 5 7) example_net tt
  = generate_text unit (last_symbol_model 5 7) (with_data example_net []) tt.
Proof.
  apply (sampler_determinism (last_symbol_model 5 7) (last_symbol_model 5 7)
           example_net (with_data example_net []) tt tt); reflexivity.
Defined.

(** ** The training loop *)

Section Training.
Context {weights : Type}.
Context (predict : weights -> list (list Z) -> list (list Q)).
Context (fit : weights -> list (list (list Z)) -> list (list (list Z)) -> nat -> weights).
Context (now : nat -> list N).
Context {self : RecurrentNet} {texts : list str} {ucs : list char}.
Hypothesis Hs : session self texts ucs.
Hypothesis Hshape : well_shaped predict (max_string_length self) (length ucs).

Lemma train_record_session (r : str) :
  r ∈ wrap <$> texts -> exists p, train_record self r = Ok p.
Proof.
  intros Hr.
  destruct (target_sequence_session self texts ucs r Hs)
    as (input & target & f & t & Hin & Htg & _ & _ & Hf & Ht & _).
  - pose proof (session_record_length Hs r Hr). intros ->. simpl in *. lia.
  - apply (session_record_length Hs r Hr).
  - by apply (session_record_vocab Hs).
  - exists (f, t). unfold train_record. rewrite Hin. cbn [bind].
    rewrite Hf. cbn [bind]. rewrite Htg. cbn [bind]. by rewrite Ht.
Qed.

Lemma train_tensors_session :
  exists features targets, train_tensors self = Ok (features, targets).
Proof.
  unfold train_tensors. rewrite (ses_data _ _ _ Hs), (session_vocab_size Hs).
  cbn [bind].
  destruct (mapM_Forall2 (train_record self) (fun _ _ => True) (wrap <$> texts))
    as (pairs & -> & _).
  { apply Forall_forall. intros r Hr.
    destruct (train_record_session r Hr) as [p Hp]. eauto. }
  cbn [bind]. eauto.
Qed.

Lemma epoch_session (features targets : list (list (list Z))) (w : weights) (i : nat) :
  let w' := fit w features targets (max_string_length self) in
  exists ints chars,
    generate_text weights predict self w' = Ok (ints, chars)
    /\ epoch weights predict fit now self features targets w i
       = Ok (w', epoch_events now self ucs i ints chars).
Proof.
  intros w'.
  destruct (generate_text_total predict Hs w' Hshape) as (ints & chars & Hg).
  exists ints, chars. split; [done|].
  unfold epoch, epoch_events. fold w'. rewrite Hg, (session_vocab_size Hs).
  unfold weights_path.
  destruct (decide (i mod 10 = 0)), (decide (i mod 50 = 0)); cbn [bind fst snd];
    by rewrite <- ?app_assoc.
Qed.

Lemma train_loop (features targets : list (list (list Z))) (w : weights)
    (trace : list event) (n : nat) :
  let fit1 := fun w => fit w features targets (max_string_length self) in
  exists per_epoch,
    length per_epoch = n
    /\ foldM (fun st idx =>
                r <~ epoch weights predict fit now self features targets (fst st) idx;
                Ok (fst r, snd st ++ snd r))
             (w, trace) (seq 0 n)
       = Ok (Nat.iter n fit1 w, trace ++ concat per_epoch)
    /\ forall i evs, per_epoch !! i = Some evs ->
         exists ints chars,
           generate_text weights predict self (Nat.iter (S i) fit1 w) = Ok (ints, chars)
           /\ evs = epoch_events now self ucs i ints chars.
Proof.
  intros fit1. induction n as [|n (per_epoch & Hlen & Hfold & Hevs)].
  - exists []. split; [done|]. split; [by rewrite app_nil_r|]. by intros i evs.
  - destruct (epoch_session features targets (Nat.iter n fit1 w) n)
      as (ints & chars & Hg & He).
    exists (per_epoch ++ [epoch_events now self ucs n ints chars]).
    split; [rewrite length_app; simpl; lia|]. split.
    + rewrite foldM_range_S, Hfold. cbn [bind fst snd]. rewrite He. cbn [bind fst snd].
      by rewrite concat_app, app_assoc; simpl; rewrite app_nil_r.
    + intros i evs Hi. destruct (decide (i < n)) as [Hlt|Hge].
      * rewrite lookup_app_l in Hi by lia. by apply Hevs.
      * rewrite lookup_app_r in Hi by lia.
        destruct (i - length per_epoch) as [|j] eqn:Hj; [|by destruct j].
        injection Hi as <-. assert (i = n) as -> by lia. eauto.
Qed.

End Training.

Lemma epoch_message_distinct (i : nat) :
  lit "Attempting to generate text." <> lit "Epoch " ++ py_str i.
Proof. intros H. apply (f_equal head) in H. vm_compute in H. discriminate. Qed.

(** C8. For a constructed object and a model of the right shape, [train]
    returns, and what it logs, fits and saves splits into one group per epoch
    index [i] in [[0, num_epochs)], in order.  In the group of epoch [i]:
    the model is fitted; the sampler's log line is present exactly when
    [i mod 10 = 0]; a test-result line is present exactly when
    [i mod 10 = 0], and it is then one of the two lines carrying the strings
    [generate_text] returns on the weights fitted so far; weights are saved
    exactly when [i mod 50 = 0], under the path
    [Documents/Weights/4LSTM_Size<vocabulary size>_atEpoch<i>_<timestamp>]. *)
Theorem training_schedule {weights : Type}
    (predict : weights -> list (list Z) -> list (list Q))
    (fit : weights -> list (list (list Z)) -> list (list (list Z)) -> nat -> weights)
    (now : nat -> list N)
    (fs : file_system) (data_source : str) (self : RecurrentNet) (ucs : list char)
    (w : weights) (num_epochs : nat) :
  RecurrentNet_init fs data_source = Ok self ->
  unique_char_set self = Some ucs ->
  well_shaped predict (max_string_length self) (length ucs) ->
  exists features targets w' per_epoch,
    train_tensors self = Ok (features, targets)
    /\ train weights predict fit now self w num_epochs = Ok (w', concat per_epoch)
    /\ length per_epoch = num_epochs
    /\ forall i evs, per_epoch !! i = Some evs ->
         exists ints chars,
           generate_text weights predict self
             (Nat.iter (S i) (fun w => fit w features targets (max_string_length self)) w)
           = Ok (ints, chars)
           /\ Fit (max_string_length self) ∈ evs
           /\ (Log (Info (lit "Attempting to generate text.")) ∈ evs <-> i mod 10 = 0)
           /\ (forall msg, Log (TestResult msg) ∈ evs <->
                 i mod 10 = 0
                 /\ (msg = lit "Epoch: " ++ py_str i
                             ++ lit "   Full Generated Int String: " ++ ints
                     \/ msg = lit "Epoch: " ++ py_str i
                                ++ lit "   Full Generated Char String: " ++ chars))
           /\ (forall path, SaveWeights path ∈ evs <->
                 i mod 50 = 0
                 /\ path = lit "Documents/Weights/4LSTM_Size" ++ py_str (length ucs)
                             ++ lit "_atEpoch" ++ py_str i ++ lit "_" ++ now i).
Proof.
  intros (texts & ucs' & Hs)%init_session Hucs Hshape.
  rewrite <- (session_unique _ _ _ _ Hs Hucs) in *. clear Hucs.
  destruct (train_tensors_session Hs) as (features & targets & Htt).
  destruct (train_loop predict fit now Hs Hshape features targets w [] num_epochs)
    as (per_epoch & Hlen & Hfold & Hevs).
  exists features, targets, (Nat.iter num_epochs
    (fun w => fit w features targets (max_string_length self)) w), per_epoch.
  split; [done|]. split.
  { unfold train. rewrite Htt. cbn [bind fst snd]. by rewrite Hfold. }
  split; [done|].
  intros i evs Hi. destruct (Hevs i evs Hi) as (ints & chars & Hg & ->).
  exists ints, chars. split; [done|].
  pose proof (epoch_message_distinct i) as Hmsg.
  unfold epoch_events.
  destruct (decide (i mod 10 = 0)) as [H10|H10], (decide (i mod 50 = 0)) as [H50|H50];
    (split; [|split; [|split]]);
    intros; rewrite ?elem_of_app, ?elem_of_cons, ?elem_of_nil;
    intuition (try discriminate; try congruence).
Qed.

Lemma training_schedule_witness :
  exists features targets w' per_epoch,
    train_tensors example_net = Ok (features, targets)
    /\ train unit (last_symbol_model 5 7) example_fit example_now example_net tt 51
       = Ok (w', concat per_epoch)
    /\ length per_epoch = 51
    /\ forall i evs, per_epoch !! i = Some evs ->
         exists ints chars,
           generate_text unit (last_symbol_model 5 7) example_net
             (Nat.iter (S i)
                (fun w => example_fit w features targets (max_string_length example_net)) tt)
           = Ok (ints, chars)
           /\ Fit (max_string_length example_net) ∈ evs
           /\ (Log (Info (lit "Attempting to generate text.")) ∈ evs <-> i mod 10 = 0)
           /\ (forall msg, Log (TestResult msg) ∈ evs <->
                 i mod 10 = 0
                 /\ (msg = lit "Epoch: " ++ py_str i
                             ++ lit "   Full Generated Int String: " ++ ints
                     \/ msg = lit "Epoch: " ++ py_str i
                                ++ lit "   Full Generated Char String: " ++ chars))
           /\ (forall path, SaveWeights path ∈ evs <->
                 i mod 50 = 0
                 /\ path = lit "Documents/Weights/4LSTM_Size" ++ py_str (length example_ucs)
                             ++ lit "_atEpoch" ++ py_str i ++ lit "_" ++ example_now i).
Proof.
  apply (training_schedule (last_symbol_model 5 7) example_fit example_now
           example_fs (lit "trump") example_net example_ucs tt 51).
  - vm_compute. reflexivity.
  - reflexivity.
  - apply last_symbol_model_shaped. simpl. lia.
Defined.

(** The first epoch of the example: fitted, sampled, logged and saved. *)
Example train_first_epoch :
  snd <$> (match train unit (last_symbol_model 5 7) example_fit example_now
                   example_net tt 1 with
           | Ok r => Some r | Raise _ => None end)
  = Some [Log (Info []); Log (Info []); Log (Info (lit "Epoch 0")); Fit 5;
          Log (Info (lit "Attempting to generate text."));
          Log (TestResult (lit "Epoch: 0   Full Generated Int String: 1 6 6 6 6 "));
          Log (TestResult (lit "Epoch: 0   Full Generated Char String: "
                             ++ [SOH; 121; 121; 121; 121]%N));
          SaveWeights (lit "Documents/Weights/4LSTM_Size7_atEpoch0_26-11-04_01:07")].
Proof. vm_compute. reflexivity. Qed.

(** ** remove_extra_characters *)

Lemma list_remove_first_lookup (l : list char) (pos : nat) (c : char) :
  l !! pos = Some c ->
  exists l', list_remove_first c l = Ok l' /\ length l = S (length l').
Proof.
  revert pos. induction l as [|y l IH]; intros pos Hpos; [done|]. simpl.
  destruct (decide (y = c)) as [->|Hne]; [eauto|].
  destruct pos as [|pos]; simpl in Hpos; [congruence|].
  destruct (IH pos Hpos) as (l' & -> & Hlen). simpl. eexists. split; [done|].
  simpl. lia.
Qed.

(** In a duplicate-free list the removed occurrence is the visited one. *)
Lemma list_remove_first_NoDup (l : list char) (pos : nat) (c : char) :
  NoDup l -> l !! pos = Some c -> list_remove_first c l = Ok (delete pos l).
Proof.
  revert pos. induction l as [|y l IH]; intros pos Hnd Hpos; [done|].
  apply NoDup_cons in Hnd as [Hy Hnd]. simpl.
  destruct pos as [|pos]; simpl in Hpos.
  - injection Hpos as ->. by rewrite decide_True.
  - rewrite decide_False.
    + by rewrite (IH pos Hnd Hpos).
    + intros ->. apply Hy. by eapply list_elem_of_lookup_2.
Qed.

(** The loop ends within [fuel] iterations and raises nothing. *)
Lemma remove_loop_total (fuel : nat) (s : str) (m : nat) (l : list char) (pos : nat) :
  length l - pos <= fuel ->
  exists l', remove_loop fuel s m l pos = Some (Ok l').
Proof.
  revert l pos. induction fuel as [|fuel IH]; intros l pos Hfuel.
  - simpl. destruct (l !! pos) eqn:Hpos; [|eauto].
    apply lookup_lt_Some in Hpos. lia.
  - simpl. destruct (l !! pos) as [c|] eqn:Hpos; [|eauto].
    pose proof (lookup_lt_Some _ _ _ Hpos) as Hlt.
    case_decide.
    + destruct (list_remove_first_lookup l pos c Hpos) as (l' & -> & Hlen).
      apply IH. lia.
    + apply IH. lia.
Qed.

Lemma take_delete_same {A} (l : list A) (pos : nat) :
  take pos (delete pos l) = take pos l.
Proof.
  revert pos. induction l as [|x l IH]; intros [|pos]; simpl; try done.
  by rewrite IH.
Qed.

(** The positions already passed are never touched again. *)
Lemma remove_loop_prefix (fuel : nat) (s : str) (m : nat) (l l' : list char) (pos : nat) :
  NoDup l -> remove_loop fuel s m l pos = Some (Ok l') -> take pos l' = take pos l.
Proof.
  revert l pos. induction fuel as [|fuel IH]; intros l pos Hnd; simpl.
  - destruct (l !! pos); [done|]. by intros [= ->].
  - destruct (l !! pos) as [c|] eqn:Hpos; [|by intros [= ->]].
    case_decide.
    + rewrite (list_remove_first_NoDup l pos c Hnd Hpos). intros Hloop.
      apply IH in Hloop; [|exact (sublist_NoDup _ _ Hnd (sublist_delete l pos))].
      apply (f_equal (take pos)) in Hloop.
      rewrite !take_take, Nat.min_l in Hloop by lia.
      rewrite Hloop. apply take_delete_same.
    + intros Hloop. apply IH in Hloop; [|done].
      apply (f_equal (take pos)) in Hloop.
      by rewrite !take_take, Nat.min_l in Hloop by lia.
Qed.

(** On the two-record example with the default threshold every character is
    rare, yet ['\1'], ['h'] and ['o'] are left in the list. *)
Example remove_extra_characters_example :
  (fun r => match r with Some (Ok self') => unique_char_set self' | _ => None end)
    (remove_extra_characters example_net
       (concat [wrap (lit "hi"); wrap (lit "yo")]) 250)
  = Some [SOH; 104; 111]%N.
Proof. vm_compute. reflexivity. Qed.

(** C10. Called on an object whose [unique_char_set] is a list,
    [remove_extra_characters] returns without raising.  When that list has
    no duplicates and its first character is rare, the second character is
    skipped and stays in the list, rare or not.  So for some dataset string
    (the joined records of the two-record example, with the default
    threshold 250) the list it leaves still holds a character that occurs
    fewer than [min_required_count] times. *)
Theorem remove_extra_characters_skips (self : RecurrentNet) (ucs : list char)
    (dataset_string : str) (min_required_count : nat) :
  unique_char_set self = Some ucs ->
  (exists self' ucs',
     remove_extra_characters self dataset_string min_required_count = Some (Ok self')
     /\ unique_char_set self' = Some ucs'
     /\ (NoDup ucs -> forall a b,
           ucs !! 0 = Some a -> ucs !! 1 = Some b ->
           count dataset_string a < min_required_count -> b ∈ ucs'))
  /\ (exists self' ucs' c,
        remove_extra_characters example_net
          (concat [wrap (lit "hi"); wrap (lit "yo")]) 250 = Some (Ok self')
        /\ unique_char_set self' = Some ucs'
        /\ c ∈ ucs'
        /\ count (concat [wrap (lit "hi"); wrap (lit "yo")]) c < 250).
Proof.
  intros Hucs. split.
  - unfold remove_extra_characters. rewrite Hucs.
    destruct (remove_loop_total (length ucs) dataset_string min_required_count ucs 0)
      as [ucs' Hloop]; [lia|].
    rewrite Hloop. eexists _, ucs'. split; [done|]. split; [done|].
    intros Hnd a b Ha Hb Hrare.
    destruct ucs as [|a' ucs0]; [done|]. simpl in Ha, Hb. injection Ha as ->.
    simpl in Hloop. rewrite decide_True in Hloop by done.
    rewrite decide_True in Hloop by done.
    apply remove_loop_prefix in Hloop; [|by apply NoDup_cons in Hnd as [_ ?]].
    destruct ucs0 as [|b' ucs1]; [done|]. simpl in Hb. injection Hb as ->.
    destruct ucs' as [|b' ucs']; [done|]. injection Hloop as ->. by left.
  - eexists _, [SOH; 104; 111]%N, SOH.
    split; [vm_compute; reflexivity|]. split; [done|]. split; [by left|].
    vm_compute. lia.
Qed.

Lemma remove_extra_characters_skips_witness :
  (exists self' ucs',
     remove_extra_characters example_net (lit "hiyo") 2 = Some (Ok self')
     /\ unique_char_set self' = Some ucs'
     /\ (NoDup example_ucs -> forall a b,
           example_ucs !! 0 = Some a -> example_ucs !! 1 = Some b ->
           count (lit "hiyo") a < 2 -> b ∈ ucs'))
  /\ (exists self' ucs' c,
        remove_extra_characters example_net
          (concat [wrap (lit "hi"); wrap (lit "yo")]) 250 = Some (Ok self')
        /\ unique_char_set self' = Some ucs'
        /\ c ∈ ucs'
        /\ count (concat [wrap (lit "hi"); wrap (lit "yo")]) c < 250).
Proof.
  apply (remove_extra_characters_skips example_net example_ucs (lit "hiyo") 2).
  reflexivity.
Defined.

(** * Further properties of the code *)

(** ** import_data beyond the well-formed case *)

Lemma longest_record_NoText (pre : list str) (rest : list json_line) (m : nat) :
  longest_record ((Text <$> pre) ++ NoText :: rest) m
  = (m `max` max_list (length <$> pre), false).
Proof.
  revert m. induction pre as [|t pre IH]; intros m; csimpl.
  - f_equal. lia.
  - rewrite IH. f_equal. case_decide; lia.
Qed.

Lemma import_data_known (self : RecurrentNet) (fs : file_system)
    (data_source file_location : str) :
  known_source data_source file_location ->
  exists msg,
    import_data self fs data_source
    = (Ok (fst (import_file self fs file_location)),
       Info msg :: snd (import_file self fs file_location)).
Proof.
  intros [[-> ->]|[-> ->]]; unfold import_data.
  - rewrite decide_True by done. destruct (import_file _ _ _). eauto.
  - rewrite decide_False by (by vm_compute). rewrite decide_True by done.
    destruct (import_file _ _ _). eauto.
Qed.



(** X2. [import_data] never resets [max_string_length]: on an object whose
    bound is [m] a well-formed import sets it to the greater of [m] and the
    longest text, plus 3.  Importing the same file a second time therefore
    adds 3 again, while [data] is the same wrapped records. *)
Theorem import_data_accumulates (self : RecurrentNet) (fs : file_system)
    (data_source file_location : str) (texts : list str) :
  known_source data_source file_location ->
  fs file_location = Some (Text <$> texts) ->
  exists self1 log1 self2 log2,
    import_data self fs data_source = (Ok self1, log1)
    /\ max_string_length self1
       = (max_string_length self `max` max_list (length <$> texts)) + 3
    /\ data self1 = Some (wrap <$> texts)
    /\ import_data self1 fs data_source = (Ok self2, log2)
    /\ max_string_length self2 = max_string_length self1 + 3
    /\ data self2 = data self1.
Proof.
  intros Hsrc Hfs.
  destruct (import_data_known self fs _ _ Hsrc) as [msg1 H1].
  rewrite (import_file_texts self fs _ _ Hfs) in H1. cbn [fst snd] in H1.
  set (self1 := with_data _ _) in H1.
  destruct (import_data_known self1 fs _ _ Hsrc) as [msg2 H2].
  rewrite (import_file_texts self1 fs _ _ Hfs) in H2. cbn [fst snd] in H2.
  eexists self1, _, _, _. rewrite H1, H2. repeat split. simpl. lia.
Qed.

Lemma import_data_accumulates_witness :
  exists self1 log1 self2 log2,
    import_data new_net example_lengths_fs (lit "alice") = (Ok self1, log1)
    /\ max_string_length self1 = 15
    /\ data self1 = Some (wrap <$> example_texts)
    /\ import_data self1 example_lengths_fs (lit "alice") = (Ok self2, log2)
    /\ max_string_length self2 = max_string_length self1 + 3
    /\ data self2 = data self1.
Proof.
  apply (import_data_accumulates new_net example_lengths_fs (lit "alice")
           (lit "Documents/alice.json") example_texts).
  - right. split; reflexivity.
  - vm_compute. reflexivity.
Defined.

(** ** The constructor *)

Lemma sentinel_in_corpus (texts : list str) (c : char) :
  texts <> [] -> c ∈ [SOH; STX; NUL] -> c ∈ concat (wrap <$> texts).
Proof.
  intros Hne Hc. destruct texts as [|t texts]; [done|].
  apply elem_of_concat. exists (wrap t). split; [by left|].
  unfold wrap. rewrite !elem_of_app, !elem_of_cons in *. tauto.
Qed.

(** X3. The outcomes of [RecurrentNet(data_source)] for a known source, by
    what its file holds: a file that cannot be opened or parsed, or an array
    with an element without text, ends in the [TypeError] of
    [get_character_set] (the import has logged and gone on); an empty array
    ends in the [KeyError] of [build_architecture], there being no ['\0'] in
    the vocabulary; a non-empty array of texts gives an object holding the
    wrapped records, the length bound and the sorted vocabulary. *)
Theorem constructor_outcomes (fs : file_system) (data_source file_location : str) :
  known_source data_source file_location ->
  (fs file_location = None -> RecurrentNet_init fs data_source = Raise TypeError)
  /\ (forall pre rest,
        fs file_location = Some ((Text <$> pre) ++ NoText :: rest) ->
        RecurrentNet_init fs data_source = Raise TypeError)
  /\ (fs file_location = Some [] -> RecurrentNet_init fs data_source = Raise KeyError)
  /\ (forall texts,
        texts <> [] -> fs file_location = Some (Text <$> texts) ->
        exists self,
          RecurrentNet_init fs data_source = Ok self
          /\ data self = Some (wrap <$> texts)
          /\ max_string_length self = max_list (length <$> texts) + 3
          /\ unique_char_set self = Some (sorted_set (concat (wrap <$> texts)))).
Proof.
  intros Hsrc. unfold RecurrentNet_init.
  destruct (import_data_known new_net fs _ _ Hsrc) as [msg ->]. cbn [fst bind].
  split; [|split; [|split]].
  - intros Hfs. by rewrite (import_file_unreadable _ _ _ Hfs).
  - intros pre rest Hfs. unfold import_file.
    by rewrite Hfs, longest_record_NoText.
  - intros Hfs. unfold import_file. by rewrite Hfs.
  - intros texts Hne Hfs. rewrite (import_file_texts _ _ _ _ Hfs). cbn [fst].
    match goal with
    | |- context [get_character_set ?s] =>
        destruct (get_character_set_new s (wrap <$> texts) eq_refl eq_refl eq_refl)
          as (self & -> & Hd & Hmsl & Hucs & Hc2i & Hi2c)
    end.
    cbn [bind]. unfold build_architecture, vocab_size. rewrite Hucs.
    assert (NUL ∈ sorted_set (concat (wrap <$> texts))) as Hnul.
    { apply sorted_set_spec, sentinel_in_corpus; [done|]. by do 2 right; left. }
    apply list_elem_of_lookup in Hnul as [k Hk]. apply Hc2i in Hk.
    unfold getitem. rewrite Hk. cbn [bind].
    exists self. by repeat split.
Qed.

Lemma constructor_outcomes_witness :
  (example_empty_fs (lit "Documents/alice.json") = None ->
   RecurrentNet_init example_empty_fs (lit "alice") = Raise TypeError)
  /\ (forall pre rest,
        example_empty_fs (lit "Documents/alice.json")
        = Some ((Text <$> pre) ++ NoText :: rest) ->
        RecurrentNet_init example_empty_fs (lit "alice") = Raise TypeError)
  /\ (example_empty_fs (lit "Documents/alice.json") = Some [] ->
      RecurrentNet_init example_empty_fs (lit "alice") = Raise KeyError)
  /\ (forall texts,
        texts <> [] ->
        example_empty_fs (lit "Documents/alice.json") = Some (Text <$> texts) ->
        exists self,
          RecurrentNet_init example_empty_fs (lit "alice") = Ok self
          /\ data self = Some (wrap <$> texts)
          /\ max_string_length self = max_list (length <$> texts) + 3
          /\ unique_char_set self = Some (sorted_set (concat (wrap <$> texts)))).
Proof.
  apply (constructor_outcomes example_empty_fs (lit "alice") (lit "Documents/alice.json")).
  right. split; reflexivity.
Defined.

(** The empty array, run: the constructor raises [KeyError]. *)
Example constructor_empty_corpus :
  RecurrentNet_init example_empty_fs (lit "alice") = Raise KeyError.
Proof. vm_compute. reflexivity. Qed.

(** ** The sentinels in the vocabulary *)

Lemma sorted_head_least (x : N) (l : list N) (y : N) :
  StronglySorted N.lt (x :: l) -> y ∈ x :: l -> (y <= x)%N -> y = x.
Proof.
  intros Hs Hy Hle. apply StronglySorted_inv in Hs as [_ Hall].
  apply elem_of_cons in Hy as [->|Hy]; [done|].
  rewrite Forall_forall in Hall. specialize (Hall y Hy). lia.
Qed.

Lemma sorted_starts_with_sentinels (l : list N) :
  StronglySorted N.lt l -> NUL ∈ l -> SOH ∈ l -> STX ∈ l ->
  exists rest, l = NUL :: SOH :: STX :: rest.
Proof.
  unfold NUL, SOH, STX. intros Hs H0 H1 H2.
  destruct l as [|x0 l]; [by apply elem_of_nil in H0|].
  assert (x0 = 0%N) as ->.
  { symmetry. apply (sorted_head_least x0 l); [done..|lia]. }
  pose proof (StronglySorted_inv Hs) as [Hs1 Hall0].
  apply elem_of_cons in H1 as [?|H1]; [done|].
  apply elem_of_cons in H2 as [?|H2]; [done|].
  destruct l as [|x1 l]; [by apply elem_of_nil in H1|].
  assert (x1 = 1%N) as ->.
  { symmetry. apply (sorted_head_least x1 l); [done..|].
    apply Forall_cons in Hall0 as [? _]. lia. }
  pose proof (StronglySorted_inv Hs1) as [Hs2 Hall1].
  apply elem_of_cons in H2 as [?|H2]; [done|].
  destruct l as [|x2 l]; [by apply elem_of_nil in H2|].
  assert (x2 = 2%N) as ->.
  { symmetry. apply (sorted_head_least x2 l); [done..|].
    apply Forall_cons in Hall1 as [? _]. lia. }
  eauto.
Qed.

Lemma session_sentinel_prefix (self : RecurrentNet) (texts : list str) (ucs : list char) :
  session self texts ucs -> exists rest, ucs = NUL :: SOH :: STX :: rest.
Proof.
  intros Hs. apply sorted_starts_with_sentinels.
  - rewrite (ses_vocab _ _ _ Hs). apply sorted_set_spec.
  - apply (session_sentinel Hs). by do 2 right; left.
  - apply (session_sentinel Hs). by left.
  - apply (session_sentinel Hs). by right; left.
Qed.

(** X4. In every constructed object the three sentinels hold the first three
    indices, whatever the corpus: ['\0'] is 0 (the mask value handed to the
    masking layer), ['\1'] is 1 and ['\2'] is 2, in both dictionaries; every
    other character has an index of 3 or more. *)
Theorem sentinel_indices (fs : file_system) (data_source : str) (self : RecurrentNet) :
  RecurrentNet_init fs data_source = Ok self ->
  char_to_int_dict self !! NUL = Some 0
  /\ char_to_int_dict self !! SOH = Some 1
  /\ char_to_int_dict self !! STX = Some 2
  /\ int_to_char_dict self !! 0 = Some NUL
  /\ int_to_char_dict self !! 1 = Some SOH
  /\ int_to_char_dict self !! 2 = Some STX
  /\ (forall c k, char_to_int_dict self !! c = Some k ->
        c <> NUL -> c <> SOH -> c <> STX -> 3 <= k).
Proof.
  intros (texts & ucs & Hs)%init_session.
  destruct (session_sentinel_prefix _ _ _ Hs) as [rest Hucs].
  repeat split; try (apply (ses_c2i _ _ _ Hs); by rewrite Hucs);
    try (rewrite (ses_i2c _ _ _ Hs); by rewrite Hucs).
  intros c k Hk H0 H1 H2. apply (ses_c2i _ _ _ Hs) in Hk. rewrite Hucs in Hk.
  destruct k as [|[|[|k]]]; simpl in Hk; try congruence. lia.
Qed.

Lemma sentinel_indices_witness :
  char_to_int_dict example_net !! NUL = Some 0
  /\ char_to_int_dict example_net !! SOH = Some 1
  /\ char_to_int_dict example_net !! STX = Some 2
  /\ int_to_char_dict example_net !! 0 = Some NUL
  /\ int_to_char_dict example_net !! 1 = Some SOH
  /\ int_to_char_dict example_net !! 2 = Some STX
  /\ (forall c k, char_to_int_dict example_net !! c = Some k ->
        c <> NUL -> c <> SOH -> c <> STX -> 3 <= k).
Proof.
  apply (sentinel_indices example_fs (lit "trump") example_net).
  vm_compute. reflexivity.
Defined.

(** ** get_character_set on dictionaries that are not empty *)

Lemma int_to_char_fold (m : gmap nat N) (l : list char) (i : nat) :
  foldl (fun (m : gmap nat N) '(value, enumeration) => <[value := enumeration]> m)
        m (enumerate l) !! i
  = match l !! i with Some c => Some c | None => m !! i end.
Proof.
  induction l as [|x l IH] using rev_ind; [done|].
  rewrite enumerate_snoc, foldl_snoc. simpl.
  destruct (decide (i = length l)) as [->|Hne].
  - by rewrite lookup_insert_eq, list_lookup_middle.
  - rewrite lookup_insert_ne by done. rewrite IH.
    destruct (decide (i < length l)).
    + by rewrite lookup_app_l.
    + rewrite !lookup_ge_None_2; [done| |lia].
      rewrite length_app. simpl. lia.
Qed.

Lemma char_to_int_fold_notin (m : gmap N nat) (l : list char) (c : char) :
  c ∉ l ->
  foldl (fun (m : gmap N nat) '(enumeration, value) => <[value := enumeration]> m)
        m (enumerate l) !! c = m !! c.
Proof.
  induction l as [|x l IH] using rev_ind; intros Hc; [done|].
  rewrite enumerate_snoc, foldl_snoc. simpl.
  rewrite not_elem_of_app, not_elem_of_cons in Hc. destruct Hc as (Hl & Hx & _).
  rewrite lookup_insert_ne by done. by apply IH.
Qed.

Lemma char_to_int_fold_in (m : gmap N nat) (l : list char) (c : char) (i : nat) :
  NoDup l -> l !! i = Some c ->
  foldl (fun (m : gmap N nat) '(enumeration, value) => <[value := enumeration]> m)
        m (enumerate l) !! c = Some i.
Proof.
  induction l as [|x l IH] using rev_ind; intros Hnd Hi; [done|].
  apply NoDup_app in Hnd as (Hnd & Hx & _).
  rewrite enumerate_snoc, foldl_snoc. simpl.
  destruct (decide (i < length l)) as [Hlt|Hge].
  - rewrite lookup_app_l in Hi by done.
    rewrite lookup_insert_ne; [by apply IH|].
    intros ->. apply (Hx c); [by eapply list_elem_of_lookup_2|by left].
  - pose proof (lookup_lt_Some _ _ _ Hi) as Hlen.
    rewrite length_app in Hlen. simpl in Hlen.
    assert (i = length l) as -> by lia.
    rewrite list_lookup_middle in Hi by done. injection Hi as ->.
    by rewrite lookup_insert_eq.
Qed.

(** X5. [get_character_set] writes into the dictionaries it finds; it does
    not rebuild them.  Each character of the new vocabulary gets its
    position, and each position its character, but a character that is not
    in the new records keeps the index it had, and an index at or beyond the
    new vocabulary size keeps the character it had. *)
Theorem get_character_set_updates (self : RecurrentNet) (d : list str) :
  data self = Some d ->
  exists self',
    get_character_set self = Ok self'
    /\ unique_char_set self' = Some (sorted_set (concat d))
    /\ (forall c i, sorted_set (concat d) !! i = Some c ->
          char_to_int_dict self' !! c = Some i /\ int_to_char_dict self' !! i = Some c)
    /\ (forall c, c ∉ concat d ->
          char_to_int_dict self' !! c = char_to_int_dict self !! c)
    /\ (forall i, length (sorted_set (concat d)) <= i ->
          int_to_char_dict self' !! i = int_to_char_dict self !! i).
Proof.
  intros Hd. unfold get_character_set. rewrite Hd.
  destruct (sorted_set_spec (concat d)) as (_ & Hnd & Hmem).
  eexists. split; [done|]. cbn [unique_char_set char_to_int_dict int_to_char_dict].
  split; [done|]. split; [|split].
  - intros c i Hi. split; [by apply char_to_int_fold_in|].
    by rewrite int_to_char_fold, Hi.
  - intros c Hc. apply char_to_int_fold_notin. by rewrite Hmem.
  - intros i Hi. rewrite int_to_char_fold. by rewrite lookup_ge_None_2.
Qed.

Lemma get_character_set_updates_witness :
  exists self',
    get_character_set (with_data example_net [lit "a"]) = Ok self'
    /\ unique_char_set self' = Some (sorted_set (concat [lit "a"]))
    /\ (forall c i, sorted_set (concat [lit "a"]) !! i = Some c ->
          char_to_int_dict self' !! c = Some i /\ int_to_char_dict self' !! i = Some c)
    /\ (forall c, c ∉ concat [lit "a"] ->
          char_to_int_dict self' !! c
          = char_to_int_dict (with_data example_net [lit "a"]) !! c)
    /\ (forall i, length (sorted_set (concat [lit "a"])) <= i ->
          int_to_char_dict self' !! i
          = int_to_char_dict (with_data example_net [lit "a"]) !! i).
Proof.
  apply (get_character_set_updates (with_data example_net [lit "a"]) [lit "a"]).
  reflexivity.
Defined.

(** After a second run on other records two characters share index 0. *)
Example get_character_set_stale_keys :
  (fun r => match r with
            | Ok self' => (char_to_int_dict self' !! 97%N, char_to_int_dict self' !! NUL,
                           int_to_char_dict self' !! 0, int_to_char_dict self' !! 6)
            | Raise _ => (None, None, None, None)
            end) (get_character_set (with_data example_net [lit "a"]))
  = (Some 0, Some 0, Some 97%N, Some 121%N).
Proof. vm_compute. reflexivity. Qed.

(** ** Outcomes of convert_to_onehot and append_onehot *)

Lemma convert_to_onehot_loop (msl v : nat) (sequence : list nat) (n : nat) :
  n <= length sequence ->
  foldM (fun new_onehot char_index =>
           r <~ index new_onehot char_index;
           k <~ index sequence char_index;
           r' <~ setitem r k 1%Z;
           Ok (<[char_index := r']> new_onehot))
        (zeros msl v) (seq 0 n)
  = if decide (n <= msl /\ Forall (fun k => k < v) (take n sequence))
    then Ok ((onehot v <$> take n sequence) ++ replicate (msl - n) (replicate v 0%Z))
    else Raise IndexError.
Proof.
  induction n as [|n IH]; intros Hn.
  - cbn [seq foldM]. rewrite take_0.
    destruct (decide _) as [_|Hbad]; [by rewrite Nat.sub_0_r|].
    exfalso. apply Hbad. split; [lia|constructor].
  - rewrite foldM_range_S, IH by lia. clear IH.
    destruct (lookup_lt_is_Some_2 sequence n) as [k Hk]; [lia|].
    assert (Forall (fun k => k < v) (take (S n) sequence)
            <-> Forall (fun k => k < v) (take n sequence) /\ k < v) as Htake.
    { by rewrite (take_S_r _ _ _ Hk), Forall_app, Forall_singleton. }
    destruct (decide (n <= msl /\ Forall (fun k => k < v) (take n sequence)))
      as [Hgood|Hgood]; cbn [bind].
    + destruct Hgood as [Hle Hall].
      assert (length (onehot v <$> take n sequence) = n) as Hpre.
      { rewrite length_fmap, length_take. lia. }
      unfold index. rewrite lookup_app_r by lia. rewrite Hpre, Nat.sub_diag.
      destruct (decide (n < msl)) as [Hlt|Hge].
      * replace (msl - n) with (S (msl - S n)) by lia.
        cbn [replicate lookup list_lookup bind].
        rewrite Hk. cbn [bind].
        destruct (decide (k < v)) as [Hkv|Hkv].
        -- rewrite setitem_zeros by done. cbn [bind].
           rewrite decide_True by (split; [lia|by apply Htake]).
           f_equal. rewrite <- (Nat.add_0_r n) at 1. rewrite <- Hpre at 1.
           rewrite insert_app_r. cbn [insert list_insert].
           by rewrite (take_S_r _ _ _ Hk), fmap_app, <- app_assoc.
        -- unfold setitem. rewrite (proj1 (lookup_replicate_None _ _ _)) by lia. cbn [bind].
           rewrite decide_False; [done|]. intros [_ [_ ?]%Htake]. lia.
      * replace (msl - n) with 0 by lia. cbn [replicate lookup list_lookup bind].
        rewrite decide_False; [done|]. intros [? _]. lia.
    + rewrite decide_False; [done|]. intros [? [? _]%Htake].
      apply Hgood. split; [lia|done].
Qed.

(** X6. [convert_to_onehot] returns exactly when the sequence is at most
    [max_string_length] long and every index in it is below the vocabulary
    size: it then returns one one-hot row per index followed by zero rows.
    A longer sequence or a greater index raises [IndexError]. *)
Theorem convert_to_onehot_outcome (self : RecurrentNet) (ucs : list char)
    (sequence : list nat) :
  unique_char_set self = Some ucs ->
  convert_to_onehot self sequence
  = if decide (length sequence <= max_string_length self
               /\ Forall (fun k => k < length ucs) sequence)
    then Ok (onehot_rows (max_string_length self) (length ucs) sequence)
    else Raise IndexError.
Proof.
  intros Hucs. unfold convert_to_onehot, vocab_size. rewrite Hucs. cbn [bind].
  rewrite convert_to_onehot_loop by done.
  destruct (decide (length sequence <= max_string_length self
                    /\ Forall (fun k => k < length ucs) sequence)) as [Hg|Hg].
  - rewrite decide_True by (by rewrite firstn_all).
    unfold onehot_rows. by rewrite firstn_all.
  - rewrite decide_False; [done|]. by rewrite firstn_all.
Qed.

Lemma convert_to_onehot_outcome_witness :
  convert_to_onehot example_net [1; 3; 4; 2; 0; 0] = Raise IndexError
  /\ convert_to_onehot example_net [1; 7] = Raise IndexError
  /\ convert_to_onehot example_net [1; 6]
     = Ok (onehot_rows 5 7 [1; 6]).
Proof.
  split; [|split].
  - exact (convert_to_onehot_outcome example_net example_ucs [1; 3; 4; 2; 0; 0] eq_refl).
  - exact (convert_to_onehot_outcome example_net example_ucs [1; 7] eq_refl).
  - exact (convert_to_onehot_outcome example_net example_ucs [1; 6] eq_refl).
Defined.



(** ** Encoding a string and displaying it again *)

Lemma int_string_snoc (ks : list nat) (k : nat) :
  int_string (ks ++ [k]) = int_string ks ++ py_str k ++ lit " ".
Proof.
  unfold int_string. rewrite fmap_app, concat_app. simpl. by rewrite app_nil_r.
Qed.

Lemma display_stops (self : RecurrentNet) (v : nat) (rest : list (list Z)) (ints chars : str) :
  display self (replicate v 0%Z :: rest) ints chars = (ints, chars).
Proof. cbn [display]. unfold conversion_index. by rewrite first_one_zeros. Qed.

Section DisplayRows.
Context {self : RecurrentNet} {texts : list str} {ucs : list char}.
Hypothesis Hs : session self texts ucs.

(** The display loop reads one-hot rows back as their characters. *)
Lemma display_onehot_rows (cs : str) (ks : list nat) (rest : list (list Z))
    (ints chars : str) :
  Forall2 (fun c k => ucs !! k = Some c) cs ks ->
  display self ((onehot (length ucs) <$> ks) ++ rest) ints chars
  = display self rest (ints ++ int_string ks) (chars ++ cs).
Proof.
  intros HF. revert ints chars.
  induction HF as [|c k cs ks Hk _ IH]; intros ints chars.
  - by rewrite !app_nil_r.
  - cbn [fmap list_fmap app display].
    rewrite conversion_index_onehot by (by eapply lookup_lt_Some).
    rewrite (ses_i2c _ _ _ Hs), Hk.
    change (list_fmap nat (list Z) (onehot (length ucs)) ks)
      with (onehot (length ucs) <$> ks).
    rewrite IH. f_equal.
    + unfold int_string. cbn [fmap list_fmap concat]. by rewrite <- !app_assoc.
    + by rewrite <- app_assoc.
Qed.

Lemma display_encoded (cs : str) (ks : list nat) (msl : nat) :
  Forall2 (fun c k => ucs !! k = Some c) cs ks ->
  display self (onehot_rows msl (length ucs) ks) [] [] = (int_string ks, cs).
Proof.
  intros HF. unfold onehot_rows. rewrite (display_onehot_rows cs ks _ _ _ HF).
  destruct (msl - length ks) as [|n]; [done|]. apply display_stops.
Qed.

End DisplayRows.

(** X8. On a constructed object, encoding a string over the vocabulary that
    fits [max_string_length] and reading the array back with the display
    loop of [generate_text] gives the string itself, together with its
    indices, each followed by a space. *)
Theorem encode_display_roundtrip (fs : file_system) (data_source : str)
    (self : RecurrentNet) (ucs : list char) (r : str) :
  RecurrentNet_init fs data_source = Ok self ->
  unique_char_set self = Some ucs ->
  length r <= max_string_length self ->
  Forall (fun c => c ∈ ucs) r ->
  exists sequence t,
    int_sequence self r = Ok sequence
    /\ convert_to_onehot self sequence = Ok t
    /\ display self t [] [] = (int_string sequence, r).
Proof.
  intros (texts & ucs' & Hs)%init_session Hucs Hlen Hr.
  rewrite <- (session_unique _ _ _ _ Hs Hucs) in *. clear Hucs.
  destruct (int_sequence_session _ _ _ _ Hs Hr) as (sequence & Hseq & HF).
  pose proof (Forall2_length _ _ _ HF) as Hlen'.
  exists sequence, (onehot_rows (max_string_length self) (length ucs') sequence).
  split; [done|]. split.
  - apply convert_to_onehot_fits; [apply Hs|lia|by eapply Forall2_vocab_bound].
  - by apply (display_encoded Hs).
Qed.

Lemma encode_display_roundtrip_witness :
  exists sequence t,
    int_sequence example_net (wrap (lit "yo")) = Ok sequence
    /\ convert_to_onehot example_net sequence = Ok t
    /\ display example_net t [] [] = (int_string sequence, wrap (lit "yo")).
Proof.
  apply (encode_display_roundtrip example_fs (lit "trump") example_net example_ucs).
  - vm_compute. reflexivity.
  - reflexivity.
  - vm_compute. lia.
  - apply (bool_decide_unpack _). vm_compute. reflexivity.
Defined.

(** ** What generate_text returns *)

Section Generated.
Context {weights : Type} (predict : weights -> list (list Z) -> list (list Q)).
Context {self : RecurrentNet} {texts : list str} {ucs : list char}.
Hypothesis Hs : session self texts ucs.

Lemma int_sequence_Forall2 (cs : str) (ks : list nat) :
  Forall2 (fun c k => ucs !! k = Some c) cs ks -> int_sequence self cs = Ok ks.
Proof.
  unfold int_sequence. induction 1 as [|c k cs ks Hk _ IH]; [done|].
  cbn [mapM]. unfold getitem at 1.
  rewrite (proj2 (ses_c2i _ _ _ Hs c k) Hk). cbn [bind]. by rewrite IH.
Qed.

(** The display loop on rows that are zero or one-hot: the characters of
    the leading one-hot rows, and their indices. *)
Lemma display_rows (rows : list (list Z)) (ints chars : str) :
  Forall (fun r => r = replicate (length ucs) 0%Z
                   \/ exists k, k < length ucs /\ r = onehot (length ucs) k) rows ->
  exists cs ks,
    display self rows ints chars = (ints ++ int_string ks, chars ++ cs)
    /\ Forall2 (fun c k => ucs !! k = Some c) cs ks
    /\ length cs <= length rows.
Proof.
  intros Hrows. revert ints chars.
  induction Hrows as [|r rows [->|(k & Hk & ->)] _ IH]; intros ints chars.
  - exists [], []. by rewrite !app_nil_r.
  - exists [], []. rewrite display_stops, !app_nil_r. split; [done|].
    split; [constructor|simpl; lia].
  - destruct (lookup_lt_is_Some_2 ucs k Hk) as [c Hc].
    destruct (IH (ints ++ py_str k ++ lit " ") (chars ++ [c])) as (cs & ks & Hd & HF & Hlen).
    exists (c :: cs), (k :: ks). split; [|split; [by constructor|simpl; lia]].
    cbn [display]. rewrite conversion_index_onehot by done.
    rewrite (ses_i2c _ _ _ Hs), Hc, Hd. f_equal.
    + unfold int_string. cbn [fmap list_fmap concat]. by rewrite <- !app_assoc.
    + by rewrite <- app_assoc.
Qed.

Lemma generate_text_strings (w : weights) (ints chars : str) :
  generate_text weights predict self w = Ok (ints, chars) ->
  exists ks,
    Forall2 (fun c k => ucs !! k = Some c) chars ks
    /\ ints = int_string ks
    /\ length chars <= max_string_length self.
Proof.
  unfold generate_text.
  destruct (generate_steps _ _ _ _ _) as [[t s]|] eqn:Hg; cbn [bind]; [|done].
  cbn [snd]. intros [= ->].
  pose proof (generate_steps_inv predict Hs _ _ _ _ Hg) as Hinv.
  pose proof (session_max_string_length Hs) as Hmsl.
  destruct (max_string_length self) as [|m] eqn:Hm; [lia|].
  apply generate_steps_strings in Hg.
  destruct Hinv as (Hlen & _ & Hrows).
  destruct (display_rows t [] [] Hrows) as (cs & ks & Hd & HF & Hle).
  rewrite Hd in Hg. injection Hg as -> ->. exists ks. split; [done|].
  split; [done|]. lia.
Qed.

(** The [try] block on a model of the right shape: the row after [idx]
    becomes the one-hot row of the arg-max at [idx]. *)
Lemma predict_next_argmax (w : weights) (t : list (list Z)) (idx : nat) :
  well_shaped predict (max_string_length self) (length ucs) ->
  sampling_inv self ucs t ->
  idx < max_string_length self ->
  exists r k,
    predict w t !! idx = Some r /\ argmax r = Ok k /\ k < length ucs
    /\ predict_next weights predict self w t idx
       = Ok (<[idx + 1 := onehot (length ucs) k]> t).
Proof.
  intros Hshape Hinv Hidx.
  destruct (Hshape w t) as [Hlen Hrows];
    [apply Hinv|exact (sampling_inv_shape t Hinv)|].
  destruct Hinv as (_ & (k1 & Hk1 & _) & _).
  assert (0 < length ucs) as Hpos by (apply lookup_lt_Some in Hk1; lia).
  destruct (lookup_lt_is_Some_2 (predict w t) idx) as [r Hr]; [lia|].
  assert (length r = length ucs) as Hr' by (eapply Forall_lookup_1 in Hrows; eauto).
  destruct (argmax_bound r) as (pv & Hpv & Hlt);
    [intros ->; simpl in Hr'; lia|].
  exists r, pv. split; [done|]. split; [done|]. split; [lia|].
  unfold predict_next, index. rewrite Hr. cbn [bind]. rewrite Hpv. cbn [bind].
  destruct (lookup_lt_is_Some_2 ucs pv) as [c Hc]; [lia|].
  unfold getitem. rewrite (ses_i2c _ _ _ Hs), Hc. cbn [bind].
  by rewrite (append_onehot_session Hs _ _ _ _ Hc).
Qed.

Lemma onehot_rows_snoc (msl v : nat) (ks : list nat) (k : nat) :
  length ks < msl ->
  <[length ks := onehot v k]> (onehot_rows msl v ks) = onehot_rows msl v (ks ++ [k]).
Proof.
  intros Hlt. unfold onehot_rows.
  rewrite <- (Nat.add_0_r (length ks)) at 1.
  rewrite <- (length_fmap (onehot v) ks) at 1. rewrite insert_app_r.
  rewrite length_app. cbn [length].
  replace (msl - length ks) with (S (msl - (length ks + 1))) by lia.
  cbn [replicate insert list_insert]. by rewrite fmap_app, <- app_assoc.
Qed.

Lemma generate_steps_autoregressive (w : weights) (n : nat) :
  well_shaped predict (max_string_length self) (length ucs) ->
  n < max_string_length self ->
  exists ks s,
    generate_steps weights predict self w n
    = Ok (onehot_rows (max_string_length self) (length ucs) ks, s)
    /\ length ks = n + 1
    /\ Forall (fun k => k < length ucs) ks
    /\ autoregressive predict self ucs w ks.
Proof.
  intros Hshape. induction n as [|n IH]; intros Hn.
  - destruct (generate_steps_0 predict Hs w) as (t0 & Hg & Hinv).
    destruct Hinv as (Hlen & (k & Hk & H0) & Hrows).
    pose proof Hg as Hg'. unfold generate_steps in Hg'.
    rewrite (session_vocab_size Hs) in Hg'. cbn [bind] in Hg'.
    rewrite (append_onehot_session Hs _ _ _ _ Hk) in Hg'. cbn in Hg'.
    exists [k], ([], []). split; [|split; [done|split]].
    + rewrite Hg. injection Hg' as <-. do 2 f_equal.
      unfold zeros, onehot_rows. cbn [length fmap list_fmap app].
      replace (max_string_length self) with (S (max_string_length self - 1)) at 1 by lia.
      done.
    + constructor; [by eapply lookup_lt_Some|constructor].
    + intros i k' Hi. by rewrite Nat.add_1_r in Hi.
  - destruct IH as (ks & s & Hg & Hlen & Hks & Hauto); [lia|].
    pose proof (generate_steps_inv predict Hs _ _ _ _ Hg) as Hinv.
    destruct (predict_next_argmax w _ n Hshape Hinv) as (r & k & Hr & Hk & Hlt & Hp);
      [lia|].
    exists (ks ++ [k]), (display self (onehot_rows (max_string_length self)
                                         (length ucs) (ks ++ [k])) [] []).
    split; [|split; [|split]].
    + rewrite generate_steps_S, Hg. cbn [bind]. unfold generate_step. cbn [fst].
      rewrite Hp. cbn [bind]. rewrite <- Hlen, onehot_rows_snoc by lia. done.
    + rewrite length_app. simpl. lia.
    + apply Forall_app. split; [done|by apply Forall_singleton].
    + intros i k' Hi. destruct (decide (i + 1 < length ks)) as [Hlt'|Hge].
      * rewrite lookup_app_l in Hi by done.
        rewrite take_app_le by lia. by apply Hauto.
      * pose proof (lookup_lt_Some _ _ _ Hi) as Hb.
        rewrite length_app in Hb. simpl in Hb.
        assert (i = n) as -> by lia.
        rewrite <- Hlen, list_lookup_middle in Hi by done. injection Hi as <-.
        rewrite <- Hlen, take_app_length. eauto.
Qed.

End Generated.

Lemma vocab_chars_of_indices (ucs : list char) (ks : list nat) :
  Forall (fun k => k < length ucs) ks ->
  exists cs, Forall2 (fun c k => ucs !! k = Some c) cs ks.
Proof.
  induction 1 as [|k ks Hk _ [cs IH]]; [by exists []|].
  destruct (lookup_lt_is_Some_2 ucs k Hk) as [c Hc].
  exists (c :: cs). by constructor.
Qed.

(** X9. On a constructed object, whatever the model, when [generate_text]
    returns its two strings describe the same symbols: the character string
    is over the vocabulary and at most [max_string_length] long, and the
    index string is the indices of its characters, each followed by a
    space. *)
Theorem generated_strings_agree {weights : Type}
    (predict : weights -> list (list Z) -> list (list Q))
    (fs : file_system) (data_source : str) (self : RecurrentNet) (ucs : list char)
    (w : weights) (ints chars : str) :
  RecurrentNet_init fs data_source = Ok self ->
  unique_char_set self = Some ucs ->
  generate_text weights predict self w = Ok (ints, chars) ->
  exists ks,
    int_sequence self chars = Ok ks
    /\ ints = int_string ks
    /\ length chars <= max_string_length self
    /\ Forall (fun c => c ∈ ucs) chars.
Proof.
  intros (texts & ucs' & Hs)%init_session Hucs Hg.
  rewrite <- (session_unique _ _ _ _ Hs Hucs) in *. clear Hucs.
  destruct (generate_text_strings predict Hs w ints chars Hg) as (ks & HF & Hints & Hlen).
  exists ks. split; [by apply (int_sequence_Forall2 Hs)|]. split; [done|].
  split; [done|].
  clear -HF. induction HF as [|c k cs ks Hk _ IH]; constructor; [|done].
  by eapply list_elem_of_lookup_2.
Qed.

Lemma generated_strings_agree_witness :
  exists ks,
    int_sequence example_net [SOH; 121; 121; 121; 121]%N = Ok ks
    /\ lit "1 6 6 6 6 " = int_string ks
    /\ length [SOH; 121; 121; 121; 121]%N <= max_string_length example_net
    /\ Forall (fun c => c ∈ example_ucs) [SOH; 121; 121; 121; 121]%N.
Proof.
  apply (generated_strings_agree (last_symbol_model 5 7) example_fs (lit "trump")
           example_net example_ucs tt).
  - vm_compute. reflexivity.
  - reflexivity.
  - vm_compute. reflexivity.
Defined.

(** X10. On a constructed object and a model of the right shape,
    [generate_text] returns exactly [max_string_length] characters, and the
    string is built autoregressively: the character at each position
    [i + 1] is the one whose index is the arg-max of the model's prediction
    at position [i], taken on the one-hot array of the first [i + 1]
    characters of the string. *)
Theorem generate_text_autoregressive {weights : Type}
    (predict : weights -> list (list Z) -> list (list Q))
    (fs : file_system) (data_source : str) (self : RecurrentNet) (ucs : list char)
    (w : weights) :
  RecurrentNet_init fs data_source = Ok self ->
  unique_char_set self = Some ucs ->
  well_shaped predict (max_string_length self) (length ucs) ->
  exists ints chars,
    generate_text weights predict self w = Ok (ints, chars)
    /\ length chars = max_string_length self
    /\ forall i c, chars !! (i + 1) = Some c ->
         exists sequence t r k,
           int_sequence self (take (i + 1) chars) = Ok sequence
           /\ convert_to_onehot self sequence = Ok t
           /\ predict w t !! i = Some r
           /\ argmax r = Ok k
           /\ int_to_char_dict self !! k = Some c.
Proof.
  intros (texts & ucs' & Hs)%init_session Hucs Hshape.
  rewrite <- (session_unique _ _ _ _ Hs Hucs) in *. clear Hucs.
  pose proof (session_max_string_length Hs) as Hmsl.
  assert (exists m, max_string_length self = S m) as [m Hm]
    by (exists (max_string_length self - 1); lia).
  destruct (generate_steps_autoregressive predict Hs w m)
    as (ks & s & Hg & Hlen & Hks & Hauto); [done|lia|].
  pose proof (generate_steps_inv predict Hs _ _ _ _ Hg) as Hinv.
  destruct (predict_next_argmax predict Hs w _ m Hshape Hinv)
    as (r & k & _ & _ & _ & Hp); [lia|].
  rewrite list_insert_ge in Hp by (rewrite length_onehot_rows; lia).
  destruct (vocab_chars_of_indices ucs' ks Hks) as [cs HF].
  pose proof (Forall2_length _ _ _ HF) as Hlencs.
  exists (int_string ks), cs. split; [|split].
  - unfold generate_text. rewrite Hm at 1. rewrite generate_steps_S, Hg. cbn [bind].
    unfold generate_step. cbn [fst]. rewrite Hp. cbn [bind snd].
    by rewrite (display_encoded Hs cs ks _ HF).
  - lia.
  - intros i c Hi.
    destruct (Forall2_lookup_l _ _ _ _ _ HF Hi) as (k' & Hk' & Hkc).
    destruct (Hauto i k' Hk') as (r' & Hr' & Ha).
    exists (take (i + 1) ks),
      (onehot_rows (max_string_length self) (length ucs') (take (i + 1) ks)), r', k'.
    split; [apply (int_sequence_Forall2 Hs); by apply Forall2_take|].
    split.
    { apply convert_to_onehot_fits; [apply Hs| |by apply Forall_take].
      rewrite length_take. lia. }
    split; [done|]. split; [done|]. by rewrite (ses_i2c _ _ _ Hs).
Qed.

Lemma generate_text_autoregressive_witness :
  exists ints chars,
    generate_text unit (last_symbol_model 5 7) example_net tt = Ok (ints, chars)
    /\ length chars = max_string_length example_net
    /\ forall i c, chars !! (i + 1) = Some c ->
         exists sequence t r k,
           int_sequence example_net (take (i + 1) chars) = Ok sequence
           /\ convert_to_onehot example_net sequence = Ok t
           /\ last_symbol_model 5 7 tt t !! i = Some r
           /\ argmax r = Ok k
           /\ int_to_char_dict example_net !! k = Some c.
Proof.
  apply (generate_text_autoregressive (last_symbol_model 5 7) example_fs (lit "trump")
           example_net example_ucs tt).
  - vm_compute. reflexivity.
  - reflexivity.
  - apply last_symbol_model_shaped. simpl. lia.
Defined.

Lemma session_start_array (self : RecurrentNet) (texts : list str) (ucs : list char) :
  session self texts ucs ->
  ucs !! 1 = Some SOH
  /\ append_onehot self (zeros (max_string_length self) (length ucs)) 0 SOH
     = Ok (onehot_rows (max_string_length self) (length ucs) [1]).
Proof.
  intros Hs. destruct (session_sentinel_prefix _ _ _ Hs) as [rest Hucs].
  assert (ucs !! 1 = Some SOH) as H1 by (by rewrite Hucs).
  split; [done|]. rewrite (append_onehot_session Hs _ _ _ _ H1). f_equal.
  pose proof (session_max_string_length Hs).
  unfold zeros, onehot_rows. cbn [length fmap list_fmap app].
  by replace (max_string_length self) with (S (max_string_length self - 1)) at 1 by lia.
Qed.

(** X11. The [try] block of the sampling loop also swallows an [IndexError]
    that comes from reading the prediction: on a constructed object, with a
    model whose prediction holds no row, every step is skipped silently and
    [generate_text] returns the start sentinel alone, with its index 1. *)
Theorem generate_text_rowless_prediction {weights : Type}
    (predict : weights -> list (list Z) -> list (list Q))
    (fs : file_system) (data_source : str) (self : RecurrentNet) (w : weights) :
  RecurrentNet_init fs data_source = Ok self ->
  (forall t, predict w t = []) ->
  generate_text weights predict self w = Ok (lit "1 ", [SOH]).
Proof.
  intros (texts & ucs & Hs)%init_session Hrows.
  destruct (session_start_array _ _ _ Hs) as [H1 Hstart].
  pose proof (session_max_string_length Hs) as Hmsl.
  set (t0 := onehot_rows (max_string_length self) (length ucs) [1]) in *.
  assert (forall t idx, predict_next weights predict self w t idx = Ok t) as Hnext.
  { intros t idx. unfold predict_next. by rewrite Hrows. }
  assert (forall n, exists s, generate_steps weights predict self w n = Ok (t0, s)
                              /\ (0 < n -> s = display self t0 [] [])) as Hsteps.
  { induction n as [|n (s & Hg & _)].
    - exists ([], []). split; [|lia].
      unfold generate_steps. rewrite (session_vocab_size Hs). cbn [bind].
      by rewrite Hstart.
    - exists (display self t0 [] []). split; [|done].
      rewrite generate_steps_S, Hg. cbn [bind]. unfold generate_step. cbn [fst].
      by rewrite Hnext. }
  destruct (Hsteps (max_string_length self)) as (s & Hg & Hs').
  unfold generate_text. rewrite Hg. cbn [bind snd]. rewrite Hs' by lia.
  unfold t0. rewrite (display_encoded Hs [SOH] [1]); [done|].
  constructor; [done|constructor].
Qed.

Lemma generate_text_rowless_prediction_witness :
  generate_text unit rowless_model example_net tt = Ok (lit "1 ", [SOH]).
Proof.
  apply (generate_text_rowless_prediction rowless_model example_fs (lit "trump")
           example_net tt).
  - vm_compute. reflexivity.
  - reflexivity.
Defined.

(** X12. A [KeyError] is not swallowed: on a constructed object, when the
    arg-max of the first prediction (at position 0, on the array holding the
    start sentinel alone) is not below the vocabulary size,
    [generate_text] raises [KeyError] from [int_to_char_dict]. *)
Theorem generate_text_unknown_prediction {weights : Type}
    (predict : weights -> list (list Z) -> list (list Q))
    (fs : file_system) (data_source : str) (self : RecurrentNet) (ucs : list char)
    (w : weights) (r : list Q) (k : nat) :
  RecurrentNet_init fs data_source = Ok self ->
  unique_char_set self = Some ucs ->
  predict w (<[0 := <[1 := 1%Z]> (replicate (length ucs) 0%Z)]>
               (zeros (max_string_length self) (length ucs))) !! 0 = Some r ->
  argmax r = Ok k ->
  length ucs <= k ->
  generate_text weights predict self w = Raise KeyError.
Proof.
  intros (texts & ucs' & Hs)%init_session Hucs Hr Hk Hge.
  rewrite <- (session_unique _ _ _ _ Hs Hucs) in *. clear Hucs.
  destruct (session_start_array _ _ _ Hs) as [H1 Hstart].
  pose proof Hstart as Hstart'.
  rewrite (append_onehot_session Hs _ _ _ _ H1) in Hstart'.
  injection Hstart' as Hstart'. unfold onehot in Hstart'. rewrite Hstart' in Hr.
  pose proof (session_max_string_length Hs) as Hmsl.
  unfold generate_text, generate_steps.
  rewrite (session_vocab_size Hs). cbn [bind]. rewrite Hstart. cbn [bind].
  destruct (max_string_length self) as [|m] eqn:Hm; [lia|].
  cbn [seq foldM]. unfold generate_step at 1. cbn [fst].
  unfold predict_next, index. rewrite Hr. cbn [bind]. rewrite Hk. cbn [bind].
  unfold getitem. rewrite (ses_i2c _ _ _ Hs), lookup_ge_None_2 by done. done.
Qed.

Lemma generate_text_unknown_prediction_witness :
  generate_text unit (wide_model 5 7) example_net tt = Raise KeyError.
Proof.
  apply (generate_text_unknown_prediction (wide_model 5 7) example_fs (lit "trump")
           example_net example_ucs tt (replicate 7 0%Q ++ [1%Q]) 7).
  - vm_compute. reflexivity.
  - reflexivity.
  - reflexivity.
  - reflexivity.
  - simpl. lia.
Defined.

(** ** The tensors and the totals of train *)

Lemma pad_sequences_fits (v : nat) (x : list (list (list Z))) (maxlen : nat) :
  Forall (fun s => length s = maxlen) x -> pad_sequences v x maxlen = x.
Proof.
  unfold pad_sequences. induction 1 as [|s x Hs _ IH]; [done|].
  cbn [fmap list_fmap]. f_equal; [|exact IH].
  by rewrite Hs, Nat.sub_diag.
Qed.

Section Tensors.
Context {self : RecurrentNet} {texts : list str} {ucs : list char}.
Hypothesis Hs : session self texts ucs.

Lemma train_record_value (r : str) :
  r ∈ wrap <$> texts ->
  exists input target,
    int_sequence self r = Ok input
    /\ target_sequence self r = Ok target
    /\ train_record self r
       = Ok (onehot_rows (max_string_length self) (length ucs) input,
             onehot_rows (max_string_length self) (length ucs) target)
    /\ length input <= max_string_length self
    /\ length target <= max_string_length self.
Proof.
  intros Hr.
  pose proof (session_record_length Hs r Hr) as Hlen.
  pose proof (session_record_vocab Hs r Hr) as Hvocab.
  destruct (target_sequence_session self texts ucs r Hs)
    as (input & target & f & t & Hin & Htg & Hlt & Hshift & _); [|lia|done|].
  { intros ->. simpl in Hlen. lia. }
  destruct (int_sequence_session _ _ _ _ Hs Hvocab) as (input' & Hin' & HF).
  assert (input' = input) as -> by congruence.
  assert (Forall (fun c => c ∈ ucs) (drop 1 r ++ [NUL])) as Hvocab'.
  { apply Forall_app. split; [by apply Forall_drop|].
    apply Forall_singleton, (session_sentinel Hs). by do 2 right; left. }
  destruct (int_sequence_session _ _ _ _ Hs Hvocab') as (target' & Htg' & HF').
  assert (target' = target) as -> by congruence.
  pose proof (Forall2_length _ _ _ HF) as Hl.
  exists input, target. split; [done|]. split; [done|].
  split; [|lia].
  unfold train_record. rewrite Hin. cbn [bind].
  rewrite (convert_to_onehot_fits self ucs input);
    [|apply Hs|lia|by eapply Forall2_vocab_bound].
  cbn [bind]. rewrite Htg. cbn [bind].
  rewrite (convert_to_onehot_fits self ucs target);
    [done|apply Hs|lia|by eapply Forall2_vocab_bound].
Qed.

Lemma train_tensors_value :
  exists pairs,
    mapM (train_record self) (wrap <$> texts) = Ok pairs
    /\ train_tensors self = Ok (fst <$> pairs, snd <$> pairs)
    /\ Forall2 (fun r p => train_record self r = Ok p
                           /\ length (fst p) = max_string_length self
                           /\ length (snd p) = max_string_length self)
               (wrap <$> texts) pairs.
Proof.
  destruct (mapM_Forall2 (train_record self)
              (fun r p => train_record self r = Ok p
                          /\ length (fst p) = max_string_length self
                          /\ length (snd p) = max_string_length self)
              (wrap <$> texts)) as (pairs & Hm & HF).
  { apply Forall_forall. intros r Hr.
    destruct (train_record_value r Hr) as (input & target & _ & _ & Hrec & Hli & Hlt).
    eexists. split; [exact Hrec|]. split; [done|].
    cbn [fst snd]. by rewrite !length_onehot_rows. }
  exists pairs. split; [done|]. split; [|done].
  unfold train_tensors. rewrite (ses_data _ _ _ Hs), (session_vocab_size Hs).
  cbn [bind]. rewrite Hm. cbn [bind].
  rewrite !pad_sequences_fits; [done| |].
  - apply Forall_fmap. clear Hm. induction HF as [|r p rs ps (_ & _ & ?) _ IH];
      by constructor.
  - apply Forall_fmap. clear Hm. induction HF as [|r p rs ps (_ & ? & _) _ IH];
      by constructor.
Qed.

End Tensors.

(** X13. On a constructed object the tensors [train] hands to the model are
    the [convert_to_onehot] arrays themselves: there is one feature array
    and one target array per record, in the order of the records, each with
    [max_string_length] rows already, so that the padding step changes
    nothing. *)
Theorem train_tensors_records (fs : file_system) (data_source : str)
    (self : RecurrentNet) (d : list str) :
  RecurrentNet_init fs data_source = Ok self ->
  data self = Some d ->
  exists features targets,
    train_tensors self = Ok (features, targets)
    /\ length features = length d
    /\ length targets = length d
    /\ forall i r, d !! i = Some r ->
         exists input target feature target_array,
           int_sequence self r = Ok input
           /\ convert_to_onehot self input = Ok feature
           /\ target_sequence self r = Ok target
           /\ convert_to_onehot self target = Ok target_array
           /\ features !! i = Some feature
           /\ targets !! i = Some target_array
           /\ length feature = max_string_length self
           /\ length target_array = max_string_length self.
Proof.
  intros (texts & ucs & Hs)%init_session Hd.
  rewrite (ses_data _ _ _ Hs) in Hd. injection Hd as <-.
  destruct (train_tensors_value Hs) as (pairs & _ & Htt & HF).
  pose proof (Forall2_length _ _ _ HF) as Hlen.
  exists (fst <$> pairs), (snd <$> pairs).
  split; [done|]. rewrite !length_fmap in *. split; [lia|]. split; [lia|].
  intros i r Hi.
  destruct (Forall2_lookup_l _ _ _ _ _ HF Hi) as ([f t] & Hp & Hrec & Hlf & Hlt).
  assert (r ∈ wrap <$> texts) as Hr by (by eapply list_elem_of_lookup_2).
  destruct (train_record_value Hs r Hr) as (input & target & Hin & Htg & Hrec' & Hli & Hlt').
  rewrite Hrec' in Hrec. injection Hrec as <- <-.
  exists input, target, (onehot_rows (max_string_length self) (length ucs) input),
    (onehot_rows (max_string_length self) (length ucs) target).
  split; [done|].
  unfold train_record in Hrec'. rewrite Hin in Hrec'. cbn [bind] in Hrec'.
  destruct (convert_to_onehot self input) as [f|] eqn:Hf; cbn [bind] in Hrec'; [|done].
  rewrite Htg in Hrec'. cbn [bind] in Hrec'.
  destruct (convert_to_onehot self target) as [t|] eqn:Ht; cbn [bind] in Hrec'; [|done].
  injection Hrec' as -> ->.
  split; [done|]. split; [done|]. split; [done|].
  rewrite !list_lookup_fmap, Hp. done.
Qed.

Lemma train_tensors_records_witness :
  exists features targets,
    train_tensors example_net = Ok (features, targets)
    /\ length features = length [wrap (lit "hi"); wrap (lit "yo")]
    /\ length targets = length [wrap (lit "hi"); wrap (lit "yo")]
    /\ forall i r, [wrap (lit "hi"); wrap (lit "yo")] !! i = Some r ->
         exists input target feature target_array,
           int_sequence example_net r = Ok input
           /\ convert_to_onehot example_net input = Ok feature
           /\ target_sequence example_net r = Ok target
           /\ convert_to_onehot example_net target = Ok target_array
           /\ features !! i = Some feature
           /\ targets !! i = Some target_array
           /\ length feature = max_string_length example_net
           /\ length target_array = max_string_length example_net.
Proof.
  apply (train_tensors_records example_fs (lit "trump") example_net).
  - vm_compute. reflexivity.
  - reflexivity.
Defined.

Lemma epoch_events_totals (now : nat -> list N) (self : RecurrentNet) (ucs : list char)
    (i : nat) (ints chars : str) :
  length (filter (fun e => is_fit e = true) (epoch_events now self ucs i ints chars)) = 1
  /\ length (filter (fun e => is_save e = true) (epoch_events now self ucs i ints chars))
     = (if decide (i mod 50 = 0) then 1 else 0)
  /\ length (filter (fun e => is_test_result e = true)
               (epoch_events now self ucs i ints chars))
     = (if decide (i mod 10 = 0) then 2 else 0).
Proof.
  unfold epoch_events.
  destruct (decide (i mod 10 = 0)), (decide (i mod 50 = 0)); by vm_compute.
Qed.

Section Totals.
Context {weights : Type}.
Context (predict : weights -> list (list Z) -> list (list Q)).
Context (fit : weights -> list (list (list Z)) -> list (list (list Z)) -> nat -> weights).
Context (now : nat -> list N).
Context {self : RecurrentNet} {texts : list str} {ucs : list char}.
Hypothesis Hs : session self texts ucs.
Hypothesis Hshape : well_shaped predict (max_string_length self) (length ucs).

Lemma train_loop_totals (features targets : list (list (list Z))) (w : weights) (n : nat) :
  exists trace,
    foldM (fun st idx =>
             r <~ epoch weights predict fit now self features targets (fst st) idx;
             Ok (fst r, snd st ++ snd r))
          (w, []) (seq 0 n)
    = Ok (Nat.iter n (fun w => fit w features targets (max_string_length self)) w, trace)
    /\ length (filter (fun e => is_fit e = true) trace) = n
    /\ length (filter (fun e => is_save e = true) trace)
       = length (filter (fun i => i mod 50 = 0) (seq 0 n))
    /\ length (filter (fun e => is_test_result e = true) trace)
       = 2 * length (filter (fun i => i mod 10 = 0) (seq 0 n)).
Proof.
  induction n as [|n (trace & Hfold & Hfit & Hsave & Htest)].
  - exists []. by repeat split.
  - destruct (epoch_session predict fit now Hs Hshape features targets
                (Nat.iter n (fun w => fit w features targets (max_string_length self)) w) n)
      as (ints & chars & _ & He).
    destruct (epoch_events_totals now self ucs n ints chars) as (Hf1 & Hs1 & Ht1).
    exists (trace ++ epoch_events now self ucs n ints chars).
    rewrite foldM_range_S, Hfold. cbn [bind fst snd]. rewrite He. cbn [bind fst snd].
    split; [done|].
    rewrite seq_S, !filter_app, !length_app, Hfit, Hsave, Htest, Hf1, Hs1, Ht1.
    cbn [Nat.add]. rewrite !filter_cons, !filter_nil.
    repeat split; [lia| |]; repeat case_decide; simpl; lia.
Qed.

End Totals.

(** X14. On a constructed object and a model of the right shape, [train]
    fits the model once per epoch, always on the same tensors, so that the
    weights it ends with are [fit] applied [num_epochs] times to the weights
    it started with; it saves the weights once for each multiple of 50 below
    [num_epochs] and logs two test-result lines for each multiple of 10
    below [num_epochs].  In particular zero epochs fit, save and log
    nothing. *)
Theorem train_totals {weights : Type}
    (predict : weights -> list (list Z) -> list (list Q))
    (fit : weights -> list (list (list Z)) -> list (list (list Z)) -> nat -> weights)
    (now : nat -> list N)
    (fs : file_system) (data_source : str) (self : RecurrentNet) (ucs : list char)
    (w : weights) (num_epochs : nat) :
  RecurrentNet_init fs data_source = Ok self ->
  unique_char_set self = Some ucs ->
  well_shaped predict (max_string_length self) (length ucs) ->
  exists features targets trace,
    train_tensors self = Ok (features, targets)
    /\ train weights predict fit now self w num_epochs
       = Ok (Nat.iter num_epochs
               (fun w => fit w features targets (max_string_length self)) w,
             trace)
    /\ length (filter (fun e => is_fit e = true) trace) = num_epochs
    /\ length (filter (fun e => is_save e = true) trace)
       = length (filter (fun i => i mod 50 = 0) (seq 0 num_epochs))
    /\ length (filter (fun e => is_test_result e = true) trace)
       = 2 * length (filter (fun i => i mod 10 = 0) (seq 0 num_epochs))
    /\ (num_epochs = 0 -> trace = []).
Proof.
  intros (texts & ucs' & Hs)%init_session Hucs Hshape.
  rewrite <- (session_unique _ _ _ _ Hs Hucs) in *. clear Hucs.
  destruct (train_tensors_session Hs) as (features & targets & Htt).
  destruct (train_loop_totals predict fit now Hs Hshape features targets w num_epochs)
    as (trace & Hfold & Hfit & Hsave & Htest).
  exists features, targets, trace. split; [done|]. split.
  { unfold train. rewrite Htt. cbn [bind fst snd]. exact Hfold. }
  repeat (split; [done|]).
  intros ->. simpl in Hfit. by destruct trace.
Qed.

Lemma train_totals_witness :
  exists features targets trace,
    train_tensors example_net = Ok (features, targets)
    /\ train unit (last_symbol_model 5 7) example_fit example_now example_net tt 120
       = Ok (Nat.iter 120
               (fun w => example_fit w features targets (max_string_length example_net)) tt,
             trace)
    /\ length (filter (fun e => is_fit e = true) trace) = 120
    /\ length (filter (fun e => is_save e = true) trace) = 3
    /\ length (filter (fun e => is_test_result e = true) trace) = 24
    /\ (120 = 0 -> trace = []).
Proof.
  apply (train_totals (last_symbol_model 5 7) example_fit example_now
           example_fs (lit "trump") example_net example_ucs tt 120).
  - vm_compute. reflexivity.
  - reflexivity.
  - apply last_symbol_model_shaped. simpl. lia.
Defined.

(** ** What remove_extra_characters keeps *)

Lemma list_remove_first_keeps (c : char) (l l' : list char) :
  list_remove_first c l = Ok l' ->
  l' `sublist_of` l /\ forall x, x ∈ l -> x <> c -> x ∈ l'.
Proof.
  revert l'. induction l as [|y l IH]; intros l'; simpl; [done|].
  case_decide as Hy.
  - intros [= <-]. split; [by apply sublist_cons|].
    intros x [->|Hx]%elem_of_cons Hne; [congruence|done].
  - destruct (list_remove_first c l) as [l''|]; cbn [bind]; [|done].
    intros [= <-]. destruct (IH l'' eq_refl) as [Hsub Hkeep]. split.
    + by apply sublist_skip.
    + intros x [->|Hx]%elem_of_cons Hne; [by left|]. right. by apply Hkeep.
Qed.

Lemma remove_loop_keeps (fuel : nat) (s : str) (m : nat) (l l' : list char) (pos : nat) :
  remove_loop fuel s m l pos = Some (Ok l') ->
  l' `sublist_of` l /\ forall x, x ∈ l -> m <= count s x -> x ∈ l'.
Proof.
  revert l pos. induction fuel as [|fuel IH]; intros l pos; simpl.
  - destruct (l !! pos); [done|]. by intros [= ->].
  - destruct (l !! pos) as [c|]; [|by intros [= ->]].
    case_decide as Hrare.
    + destruct (list_remove_first c l) as [l1|] eqn:Hrem; [|done].
      intros [Hsub Hkeep]%IH.
      destruct (list_remove_first_keeps _ _ _ Hrem) as [Hsub1 Hkeep1].
      split; [by etrans|].
      intros x Hx Hfreq. apply Hkeep; [|done]. apply Hkeep1; [done|].
      intros ->. lia.
    + apply IH.
Qed.

Lemma remove_loop_all_frequent (fuel : nat) (s : str) (m : nat) (l : list char) (pos : nat) :
  Forall (fun c => m <= count s c) l ->
  length l - pos <= fuel ->
  remove_loop fuel s m l pos = Some (Ok l).
Proof.
  intros Hall. revert pos. induction fuel as [|fuel IH]; intros pos Hfuel; simpl.
  - destruct (l !! pos) eqn:Hpos; [|done]. apply lookup_lt_Some in Hpos. lia.
  - destruct (l !! pos) as [c|] eqn:Hpos; [|done].
    pose proof (lookup_lt_Some _ _ _ Hpos).
    rewrite decide_False; [apply IH; lia|].
    eapply Forall_lookup_1 in Hall; [|exact Hpos]. simpl in Hall. lia.
Qed.

(** X15. Called on an object whose [unique_char_set] is a list,
    [remove_extra_characters] only ever drops rare characters: what it
    leaves is a sublist of the list it found, every character that occurs at
    least [min_required_count] times is still there, and a list without rare
    characters is left unchanged.  The two dictionaries, the records and the
    length bound are not touched. *)
Theorem remove_extra_characters_keeps_frequent (self : RecurrentNet) (ucs : list char)
    (dataset_string : str) (min_required_count : nat) :
  unique_char_set self = Some ucs ->
  exists self' ucs',
    remove_extra_characters self dataset_string min_required_count = Some (Ok self')
    /\ unique_char_set self' = Some ucs'
    /\ ucs' `sublist_of` ucs
    /\ (forall c, c ∈ ucs -> min_required_count <= count dataset_string c -> c ∈ ucs')
    /\ (Forall (fun c => min_required_count <= count dataset_string c) ucs -> ucs' = ucs)
    /\ char_to_int_dict self' = char_to_int_dict self
    /\ int_to_char_dict self' = int_to_char_dict self
    /\ data self' = data self
    /\ max_string_length self' = max_string_length self.
Proof.
  intros Hucs. unfold remove_extra_characters. rewrite Hucs.
  destruct (remove_loop_total (length ucs) dataset_string min_required_count ucs 0)
    as [ucs' Hloop]; [lia|].
  rewrite Hloop. eexists _, ucs'. split; [done|]. split; [done|].
  destruct (remove_loop_keeps _ _ _ _ _ _ Hloop) as [Hsub Hkeep].
  split; [done|]. split; [done|]. split; [|done].
  intros Hall.
  rewrite (remove_loop_all_frequent _ _ _ _ 0 Hall) in Hloop by lia. congruence.
Qed.

Lemma remove_extra_characters_keeps_frequent_witness :
  exists self' ucs',
    remove_extra_characters example_net (concat [wrap (lit "hi"); wrap (lit "yo")]) 2
    = Some (Ok self')
    /\ unique_char_set self' = Some ucs'
    /\ ucs' `sublist_of` example_ucs
    /\ (forall c, c ∈ example_ucs ->
          2 <= count (concat [wrap (lit "hi"); wrap (lit "yo")]) c -> c ∈ ucs')
    /\ (Forall (fun c => 2 <= count (concat [wrap (lit "hi"); wrap (lit "yo")]) c)
               example_ucs -> ucs' = example_ucs)
    /\ char_to_int_dict self' = char_to_int_dict example_net
    /\ int_to_char_dict self' = int_to_char_dict example_net
    /\ data self' = data example_net
    /\ max_string_length self' = max_string_length example_net.
Proof.
  apply (remove_extra_characters_keeps_frequent example_net example_ucs
           (concat [wrap (lit "hi"); wrap (lit "yo")]) 2).
  reflexivity.
Defined.

Lemma delete_middle {A} (pre : list A) (x : A) (l : list A) :
  delete (length pre) (pre ++ x :: l) = pre ++ l.
Proof. induction pre as [|y pre IH]; [done|]. simpl. by rewrite IH. Qed.

Lemma remove_loop_all_rare (fuel : nat) (s : str) (m : nat) (pre l : list char) :
  NoDup (pre ++ l) ->
  Forall (fun c => count s c < m) l ->
  length l <= fuel ->
  remove_loop fuel s m (pre ++ l) (length pre) = Some (Ok (pre ++ odds l)).
Proof.
  revert pre l. induction fuel as [|fuel IH]; intros pre l Hnd Hrare Hfuel.
  - destruct l; [|simpl in Hfuel; lia]. simpl.
    by rewrite app_nil_r, lookup_ge_None_2.
  - destruct l as [|a l].
    { simpl. by rewrite app_nil_r, lookup_ge_None_2. }
    cbn [remove_loop]. rewrite list_lookup_middle by done.
    apply Forall_cons in Hrare as [Ha Hrare]. rewrite decide_True by done.
    rewrite (list_remove_first_NoDup _ (length pre) a Hnd)
      by (by rewrite list_lookup_middle).
    rewrite delete_middle.
    assert (NoDup (pre ++ l)) as Hnd'.
    { apply (sublist_NoDup _ _ Hnd). apply sublist_app; [done|by apply sublist_cons]. }
    destruct l as [|b l].
    + destruct fuel; simpl; by rewrite app_nil_r, lookup_ge_None_2 by lia.
    + apply Forall_cons in Hrare as [_ Hrare].
      replace (S (length pre)) with (length (pre ++ [b]))
        by (rewrite length_app; simpl; lia).
      replace (pre ++ b :: l) with ((pre ++ [b]) ++ l) in * by (by rewrite <- app_assoc).
      rewrite IH; [|done..|simpl in Hfuel; lia].
      by rewrite <- app_assoc.
Qed.

Lemma length_odds {A} (l : list A) : length (odds l) = length l / 2.
Proof.
  assert (forall n (k : list A), length k <= n -> length (odds k) = length k / 2) as H.
  { induction n as [|n IH]; intros k Hk.
    - destruct k; [reflexivity|simpl in Hk; lia].
    - destruct k as [|a [|b k]]; [reflexivity..|].
      cbn [odds length]. rewrite IH by (simpl in Hk; lia).
      replace (S (S (length k))) with (1 * 2 + length k) by lia.
      rewrite Nat.div_add_l by lia. lia. }
  by apply (H (length l)).
Qed.

(** X16. When the list has no duplicates (as after [get_character_set]) and
    every character in it is rare, [remove_extra_characters] leaves exactly
    the characters at the odd positions: each removal makes the loop skip
    the next character, so only every second one is pruned and half of the
    list (rounded down) is left. *)
Theorem remove_extra_characters_all_rare (self : RecurrentNet) (ucs : list char)
    (dataset_string : str) (min_required_count : nat) :
  unique_char_set self = Some ucs ->
  NoDup ucs ->
  Forall (fun c => count dataset_string c < min_required_count) ucs ->
  exists self',
    remove_extra_characters self dataset_string min_required_count = Some (Ok self')
    /\ unique_char_set self' = Some (odds ucs)
    /\ length (odds ucs) = length ucs / 2.
Proof.
  intros Hucs Hnd Hrare. unfold remove_extra_characters. rewrite Hucs.
  pose proof (remove_loop_all_rare (length ucs) dataset_string min_required_count
                [] ucs Hnd Hrare (le_n _)) as Hloop.
  cbn [app length] in Hloop. rewrite Hloop.
  eexists. split; [done|]. split; [done|]. apply length_odds.
Qed.

Lemma remove_extra_characters_all_rare_witness :
  exists self',
    remove_extra_characters example_net
      (concat [wrap (lit "hi"); wrap (lit "yo")]) 250 = Some (Ok self')
    /\ unique_char_set self' = Some [SOH; 104; 111]%N
    /\ length (odds example_ucs) = length example_ucs / 2.
Proof.
  apply (remove_extra_characters_all_rare example_net example_ucs
           (concat [wrap (lit "hi"); wrap (lit "yo")]) 250).
  - reflexivity.
  - apply (bool_decide_unpack _). vm_compute. reflexivity.
  - apply (bool_decide_unpack _). vm_compute. reflexivity.
Defined.
